(** * reel2yt: fingerprint similarity, score fusion and match selection

    A shallow embedding of [app/core/fingerprint.py] and
    [app/services/matcher.py].

    Numbers.  Python's [float] values are modelled as exact rationals [Q]:
    the decimal constants of the source ([0.62], [0.7], ...) are the
    rationals they denote, and [+], [*], [/] are exact.  Comparisons are the
    boolean tests of the source ([<=], [>], [==]) on those rationals.
    Rounding of the binary64 operations is not part of that model, which
    serves for the properties that rounding cannot change (ranges, orders,
    the branch taken).  Where a property turns on how a product, a sum or a
    difference is rounded ([fuse_scores], [_duration_ok]), the function is
    embedded a second time, in [Binary64], over binary64 numbers.

    Errors.  A Python exception is a value [Raise e] of the [result] type;
    a function that cannot raise returns its value directly. *)

From Stdlib Require Import ZArith QArith Qabs Qround Lia Lqa Bool String Ascii List.
From Stdlib Require PrimFloat.
From stdpp Require Import base option list sorting strings gmap.
Import ListNotations.

Local Open Scope Q_scope.

(** ** Python helpers *)

Module Py.

(** Exceptions the modelled code can raise. *)
Inductive exn : Type :=
  | ValueError
  | TypeError
  | AttributeError
  | FFMpegError.

(** The outcome of a call that may raise. *)
Inductive result (A : Type) : Type :=
  | Ok (a : A)
  | Raise (e : exn).

Arguments Ok {A} a.
Arguments Raise {A} e.

#[global] Instance result_ret : MRet result := @Ok.

#[global] Instance result_bind : MBind result :=
  fun A B f m =>
    match m with
    | Ok a => f a
    | Raise e => Raise e
    end.

(** [x <= y] on floats is decidable; used to sort arrays. *)
#[global] Instance Qle_dec : RelDecision Qle.
Proof.
  intros x y. destruct (Qlt_le_dec y x) as [H|H]; [right|left];
    [apply Qlt_not_le, H | exact H].
Defined.

(** [x < y] on floats, as a boolean. *)
Definition Qlt_bool (x y : Q) : bool := negb (Qle_bool y x).

(** Truthiness of a float: [0.0] is falsy. *)
Definition truthy_float (x : Q) : bool := negb (Qeq_bool x 0).

(** Truthiness of an [Optional[float]]: [None] and [0.0] are falsy. *)
Definition truthy_opt_float (x : option Q) : bool :=
  match x with
  | None => false
  | Some v => truthy_float v
  end.

(** Truthiness of a list: the empty list is falsy. *)
Definition truthy_list {A : Type} (l : list A) : bool :=
  match l with
  | [] => false
  | _ :: _ => true
  end.

(** Truthiness of an [Optional[List[_]]]. *)
Definition truthy_opt_list {A : Type} (l : option (list A)) : bool :=
  match l with
  | None => false
  | Some l => truthy_list l
  end.

(** The builtin [max(a, b)]: [b] only when [b > a], else the first. *)
Definition max (a b : Q) : Q := if Qlt_bool a b then b else a.

(** The builtin [min(a, b)]: [b] only when [b < a], else the first. *)
Definition min (a b : Q) : Q := if Qlt_bool b a then b else a.

(** The builtin [min] over a sequence of ints; an empty one raises. *)
Definition min_of (l : list Z) : result Z :=
  match l with
  | [] => Raise ValueError
  | x :: l' => Ok (fold_left Z.min l' x)
  end.

(** A value read back by [json.loads]. *)
#[warnings="-register-all"]
Inductive json : Type :=
  | JNull
  | JBool (b : bool)
  | JNum (q : Q)
  | JStr (s : string)
  | JArr (l : list json)
  | JObj (m : gmap string json).

(** Truthiness of a JSON value, as [if data] tests it. *)
Definition truthy_json (v : json) : bool :=
  match v with
  | JNull => false
  | JBool b => b
  | JNum q => truthy_float q
  | JStr s => negb (String.eqb s "")
  | JArr l => truthy_list l
  | JObj m => negb (bool_decide (m = ∅))
  end.

(** [v == s] for a value [v] returned by [dict.get] and a string [s]. *)
Definition eq_str (v : option json) (s : string) : bool :=
  match v with
  | Some (JStr s') => String.eqb s' s
  | _ => false
  end.

End Py.

Import Py.

(** ** The parts of imagehash the code calls

    An [ImageHash] is a boolean array; it is kept here flattened.  The
    model covers what the code feeds it: a hex string of [n] digits is the
    array of its [4 * n] bits, most significant first (for the 16-digit
    hashes that [_hash_image] produces with [_HASH_SIZE = 8], the 8 x 8
    array of a 64-bit pHash). *)

Module ImageHash.

(** The value of a hexadecimal digit, from its character code: [0-9],
    [a-f] or [A-F]. *)
Definition hex_val (c : ascii) : option nat :=
  let n := nat_of_ascii c in
  (if (48 <=? n) && (n <=? 57) then Some (n - 48)
   else if (97 <=? n) && (n <=? 102) then Some (n - 87)
   else if (65 <=? n) && (n <=? 70) then Some (n - 55)
   else None)%nat.

Definition nibble_bits (v : nat) : list bool :=
  [Nat.testbit v 3; Nat.testbit v 2; Nat.testbit v 1; Nat.testbit v 0].

Fixpoint hex_bits (s : string) : option (list bool) :=
  match s with
  | EmptyString => Some []
  | String c s' =>
      v ← hex_val c; bs ← hex_bits s'; Some (nibble_bits v ++ bs)
  end.

(** [imagehash.hex_to_hash]: [int(hexstr, 16)] raises [ValueError] on the
    empty string and on a string that is not hexadecimal.  (Python's [int]
    also accepts a sign, a [0x] prefix, underscores and surrounding blanks;
    no hash that [_hash_image] writes has them, and the model raises on
    them.)  The bits are those of the sixteen digits that [_hash_image]
    writes, an 8 x 8 array; for other lengths [imagehash] sizes the array
    from the square root of the length, which is not followed here. *)
Definition hex_to_hash (hx : string) : result (list bool) :=
  match hx with
  | EmptyString => Raise ValueError
  | _ =>
      match hex_bits hx with
      | Some bs => Ok bs
      | None => Raise ValueError
      end
  end.

(** [numpy.count_nonzero(a != b)] on two flattened arrays. *)
Fixpoint count_diff (a b : list bool) : nat :=
  match a, b with
  | x :: a', y :: b' => (if xorb x y then 1 else 0) + count_diff a' b'
  | _, _ => 0
  end%nat.

(** [ImageHash.__sub__]: hashes of different sizes raise [TypeError]. *)
Definition sub (a b : list bool) : result Z :=
  if (length a =? length b)%nat then Ok (Z.of_nat (count_diff a b))
  else Raise TypeError.

End ImageHash.

(** ** The parts of numpy the code calls, on one-dimensional arrays *)

Module Np.

Definition sort (arr : list Q) : list Q := merge_sort Qle arr.

Definition sum (arr : list Q) : Q := fold_right Qplus 0 arr.

Definition size (arr : list Q) : Q := inject_Z (Z.of_nat (length arr)).

(** [np.mean(arr)]. *)
Definition mean (arr : list Q) : Q := sum arr / size arr.

(** [np.median(arr)]: the middle element of the sorted array, or the mean
    of the two middle ones. *)
Definition median (arr : list Q) : Q :=
  let s := sort arr in
  let n := length arr in
  if Nat.even n
  then (nth (n / 2 - 1) s 0 + nth (n / 2) s 0) / 2
  else nth (n / 2) s 0.

(** [np.percentile(arr, q)] with the default linear interpolation between
    the two elements around the virtual index [(n - 1) * q / 100]. *)
Definition percentile (arr : list Q) (q : Q) : Q :=
  let s := sort arr in
  let n := Z.of_nat (length arr) in
  let vi := inject_Z (n - 1) * (q / 100) in
  let lo := Qfloor vi in
  let hi := Z.min (lo + 1) (n - 1) in
  let g := vi - inject_Z lo in
  let a := nth (Z.to_nat lo) s 0 in
  let b := nth (Z.to_nat hi) s 0 in
  a + (b - a) * g.

(** [np.mean(arr <= t)]: the share of elements at or below [t]. *)
Definition mean_le (arr : list Q) (t : Z) : Q :=
  inject_Z (Z.of_nat (length (filter (fun x => Qle_bool x (inject_Z t) = true) arr)))
  / size arr.

(** [np.dot(a, b)] on vectors; different lengths raise [ValueError]. *)
Fixpoint dot_prod (a b : list Q) : Q :=
  match a, b with
  | x :: a', y :: b' => x * y + dot_prod a' b'
  | _, _ => 0
  end.

Definition dot (a b : list Q) : result Q :=
  if (length a =? length b)%nat then Ok (dot_prod a b) else Raise ValueError.

End Np.

(** ** app/utils/config.py: the fields of [CFG] the core reads *)

Record CFG : Type := mkCFG {
  frame_stride_sec : Q;
  hash_threshold : Z;
  audio_fp : bool
}.

(** ** app/core/fingerprint.py *)

Module Fingerprint.

Definition _HASH_SIZE : Z := 8.
Definition _VER : string := "fp_v1".

(** The content of a cache file as [json.loads(path.read_text())] finds
    it: text that cannot be read or parsed, or a JSON value. *)
Inductive file : Type :=
  | Unreadable
  | Json (v : json).

(** [_save_json(path, obj)]. *)
Definition _save_json (fs : gmap string file) (path : string) (obj : json)
  : gmap string file :=
  <[path := Json obj]> fs.

(** [_load_json(path)]: any exception (missing file, bad text) gives
    [None]. *)
Definition _load_json (fs : gmap string file) (path : string) : option json :=
  match fs !! path with
  | Some (Json v) => Some v
  | Some Unreadable => None
  | None => None
  end.

Definition _hex_to_hash (hx : string) : result (list bool) :=
  ImageHash.hex_to_hash hx.

Definition _hamming (a b : list bool) : result Z := ImageHash.sub a b.

(** [video_to_frame_hashes(video_path, stride_sec, limit)].  [sig] is the
    content signature [_video_sig] gave, [extracted] the outcome of
    [extract_frames] followed by [frame_hashes_from_dir], [fs] the files of
    the fingerprint directory.  Returns the outcome and the files after the
    call. *)
Definition video_to_frame_hashes (sig : string)
    (extracted : result (list string)) (fs : gmap string file)
  : result json * gmap string file :=
  let cache := "frames_" +:+ sig +:+ ".json" in
  let recompute :=
    match extracted with
    | Raise e => (Raise e, fs)
    | Ok hashes =>
        let lst := JArr (JStr <$> hashes) in
        (Ok lst,
         _save_json fs cache
           (JObj (<["ver" := JStr _VER]>
                 (<["hashes" := lst]>
                 (<["hash_size" := JNum (inject_Z _HASH_SIZE)]> ∅)))))
    end in
  if bool_decide (is_Some (fs !! cache)) then
    match _load_json fs cache with
    | None => recompute
    | Some data =>
        if truthy_json data then
          match data with
          | JObj m =>
              if eq_str (m !! "ver") _VER
              then (Ok (default (JArr []) (m !! "hashes")), fs)
              else recompute
          | _ => (Raise AttributeError, fs)
          end
        else recompute
    end
  else recompute.

(** [@dataclass FrameMatchStats]. *)
Record FrameMatchStats : Type := mkFrameMatchStats {
  median : Q;
  mean : Q;
  p25 : Q;
  p75 : Q;
  match_frac : Q;
  score : Q
}.

(** The statistics computed from the nearest-neighbour distances
    (lines 142-151 of [frame_similarity_score]). *)
Definition stats_of_dists (dists : list Z) (t : Z) : FrameMatchStats :=
  let arr := inject_Z <$> dists in
  let median := Np.median arr in
  let mean := Np.mean arr in
  let p25 := Np.percentile arr 25 in
  let p75 := Np.percentile arr 75 in
  let match_frac := Np.mean_le arr t in
  let closeness := Py.max 0.0 (1.0 - median / 64.0) in
  let score := 0.6 * match_frac + 0.4 * closeness in
  mkFrameMatchStats median mean p25 p75 match_frac score.

(** [min(_hamming(ha, hb) for hb in B)]. *)
Definition nearest (B : list (list bool)) (ha : list bool) : result Z :=
  ds ← mapM (_hamming ha) B; min_of ds.

(** [frame_similarity_score(hashes_a, hashes_b, threshold)]. *)
Definition frame_similarity_score (cfg : CFG) (hashes_a hashes_b : list string)
    (threshold : option Z) : result FrameMatchStats :=
  let t := default (hash_threshold cfg) threshold in
  if negb (truthy_list hashes_a) || negb (truthy_list hashes_b) then
    Ok (mkFrameMatchStats 64.0 64.0 64.0 64.0 0.0 0.0)
  else
    A ← mapM _hex_to_hash hashes_a;
    B ← mapM _hex_to_hash hashes_b;
    dists ← mapM (nearest B) A;
    Ok (stats_of_dists dists t).

(** [cosine] and [audio_similarity_score].  [np.linalg.norm] takes a
    square root, which has no exact rational value in general: the norm is a
    parameter of this section. *)
Section Audio.

Variable norm : list Q -> Q.

Definition cosine (a b : list Q) : result Q :=
  let da := norm a in
  let db := norm b in
  if Qeq_bool da 0 || Qeq_bool db 0 then Ok 0.0
  else d ← Np.dot a b; Ok (d / (da * db)).

Definition audio_similarity_score (vec_a vec_b : option (list Q)) : result Q :=
  if negb (truthy_opt_list vec_a) || negb (truthy_opt_list vec_b) then Ok 0.0
  else
    c ← cosine (default [] vec_a) (default [] vec_b);
    Ok (Py.max 0.0 (Py.min 1.0 c)).

End Audio.

(** [@dataclass CombinedScore]. *)
Record CombinedScore : Type := mkCombinedScore {
  frames : FrameMatchStats;
  audio : Q;
  fused : Q
}.

(** [fuse_scores(frame_stats, audio_sim)]. *)
Definition fuse_scores (frame_stats : FrameMatchStats) (audio_sim : Q)
  : CombinedScore :=
  let fused :=
    if Qlt_bool 0 audio_sim
    then 0.7 * score frame_stats + 0.3 * audio_sim
    else score frame_stats in
  mkCombinedScore frame_stats audio_sim fused.

End Fingerprint.

(** ** app/services/matcher.py *)

Module Matcher.

(** [@dataclass CandidateScore]. *)
Record CandidateScore : Type := mkCandidateScore {
  video_id : string;
  url : string;
  title : string;
  channel : option string;
  yt_duration : option Q;
  frame_median : Q;
  frame_match_frac : Q;
  frame_score : Q;
  audio_score : Q;
  fused_score : Q;
  title_ratio : Q;
  reason : string
}.

(** [_duration_ok(ig_dur, yt_dur)]: [not yt_dur] holds for [None] and for
    [0.0]. *)
Definition _duration_ok (ig_dur : Q) (yt_dur : option Q) : bool :=
  if negb (truthy_opt_float yt_dur) then true
  else
    let dd := Qabs (ig_dur - default 0 yt_dur) in
    if Qle_bool ig_dur 60 then Qle_bool dd 8
    else if Qle_bool ig_dur 180 then Qle_bool dd 12
    else Qle_bool dd 20.

(** [pick_best(scored)]. *)
Definition pick_best (scored : list CandidateScore) : option CandidateScore :=
  match scored with
  | [] => None
  | top :: _ =>
      if Qle_bool 0.62 (fused_score top) && Qle_bool 0.55 (frame_match_frac top)
      then Some top
      else None
  end.

End Matcher.

(** ** Binary64 arithmetic

    Python's floats are IEEE 754 binary64 numbers, and so are the kernel's:
    here [fuse_scores] and [_duration_ok] are embedded operation for
    operation, every product, sum and difference rounded as Python rounds
    it.  A decimal constant of the source is the binary64 number nearest to
    it, as in Python; an [int] constant compared with a float ([60], [8])
    is that number exactly. *)

Module Binary64.

Import PrimFloat.

Local Open Scope float_scope.

(** Truthiness of a float: [0.0] and [-0.0] are falsy, a NaN is not. *)
Definition truthy_float (x : float) : bool := negb (x =? 0).

(** Truthiness of an [Optional[float]]: [None] is falsy too. *)
Definition truthy_opt_float (x : option float) : bool :=
  match x with
  | Some x => truthy_float x
  | None => false
  end.

(** [@dataclass FrameMatchStats]. *)
Record FrameMatchStats : Type := mkFrameMatchStats {
  median : float;
  mean : float;
  p25 : float;
  p75 : float;
  match_frac : float;
  score : float
}.

(** [@dataclass CombinedScore]. *)
Record CombinedScore : Type := mkCombinedScore {
  frames : FrameMatchStats;
  audio : float;
  fused : float
}.

(** [fuse_scores(frame_stats, audio_sim)]. *)
#[warnings="-inexact-float"]
Definition fuse_scores (frame_stats : FrameMatchStats) (audio_sim : float)
  : CombinedScore :=
  let fused :=
    if 0 <? audio_sim
    then 0.7 * score frame_stats + 0.3 * audio_sim
    else score frame_stats in
  mkCombinedScore frame_stats audio_sim fused.

(** [_duration_ok(ig_dur, yt_dur)]: [not yt_dur] holds for [None] and for
    a zero. *)
Definition _duration_ok (ig_dur : float) (yt_dur : option float) : bool :=
  if negb (truthy_opt_float yt_dur) then true
  else
    let dd := abs (ig_dur - default 0 yt_dur) in
    if ig_dur <=? 60 then dd <=? 8
    else if ig_dur <=? 180 then dd <=? 12
    else dd <=? 20.

End Binary64.

(** * Properties *)

(** ** Facts about the Python helpers *)

Module PyFacts.

Lemma Qlt_bool_iff (x y : Q) : Qlt_bool x y = true <-> x < y.
Proof.
  unfold Qlt_bool. rewrite negb_true_iff.
  split; intros H.
  - apply Qnot_le_lt. intros Hle. apply Qle_bool_iff in Hle. congruence.
  - destruct (Qle_bool y x) eqn:E; [|reflexivity].
    apply Qle_bool_iff in E. exfalso. apply (Qlt_not_le _ _ H E).
Qed.

Lemma Qlt_bool_false_iff (x y : Q) : Qlt_bool x y = false <-> y <= x.
Proof.
  unfold Qlt_bool. rewrite negb_false_iff. apply Qle_bool_iff.
Qed.

Lemma Qle_bool_false_iff (x y : Q) : Qle_bool x y = false <-> y < x.
Proof.
  rewrite <- Qlt_bool_iff. unfold Qlt_bool.
  destruct (Qle_bool x y); simpl; split; congruence.
Qed.

Lemma Qeq_bool_false_iff (x y : Q) : Qeq_bool x y = false <-> ~ x == y.
Proof.
  split.
  - intros E H. apply Qeq_bool_iff in H. congruence.
  - intros H. destruct (Qeq_bool x y) eqn:E; [|reflexivity].
    apply Qeq_bool_iff in E. contradiction.
Qed.

Lemma max_spec (a b : Q) :
  (a < b /\ Py.max a b = b) \/ (b <= a /\ Py.max a b = a).
Proof.
  unfold Py.max. destruct (Qlt_bool a b) eqn:E.
  - left. split; [apply Qlt_bool_iff, E | reflexivity].
  - right. split; [apply Qlt_bool_false_iff, E | reflexivity].
Qed.

Lemma min_spec (a b : Q) :
  (b < a /\ Py.min a b = b) \/ (a <= b /\ Py.min a b = a).
Proof.
  unfold Py.min. destruct (Qlt_bool b a) eqn:E.
  - left. split; [apply Qlt_bool_iff, E | reflexivity].
  - right. split; [apply Qlt_bool_false_iff, E | reflexivity].
Qed.

(** Turn the boolean tests of a goal into order facts for [lra]. *)
Ltac bool_to_order :=
  repeat match goal with
  | H : Qle_bool _ _ = true |- _ => apply Qle_bool_iff in H
  | H : Qle_bool _ _ = false |- _ => apply Qle_bool_false_iff in H
  | H : Qlt_bool _ _ = true |- _ => apply Qlt_bool_iff in H
  | H : Qlt_bool _ _ = false |- _ => apply Qlt_bool_false_iff in H
  | H : Qeq_bool _ _ = true |- _ => apply Qeq_bool_iff in H
  | H : Qeq_bool _ _ = false |- _ => apply Qeq_bool_false_iff in H
  end.

End PyFacts.

Import PyFacts.

(** ** Selection and the duration gate ([matcher.py]) *)

Module MatcherSpec.

Import Matcher.

(** C1.  [pick_best] reports no match on an empty list; on a non-empty
    list, whatever follows the top entry, it returns the top entry exactly
    when its fused score is at least 0.62 and its frame match fraction is at
    least 0.55, and reports no match exactly when that fails.  The list
    need not even be sorted. *)
Theorem pick_best_policy :
  pick_best [] = None /\
  (forall (top : CandidateScore) (rest : list CandidateScore),
     (pick_best (top :: rest) = Some top <->
        0.62 <= fused_score top /\ 0.55 <= frame_match_frac top) /\
     (pick_best (top :: rest) = None <->
        ~ (0.62 <= fused_score top /\ 0.55 <= frame_match_frac top))).
Proof.
  split; [reflexivity|].
  intros top rest. simpl.
  destruct (Qle_bool 0.62 (fused_score top)) eqn:Ef;
    destruct (Qle_bool 0.55 (frame_match_frac top)) eqn:Em;
    simpl; bool_to_order; repeat split;
    try congruence; try tauto; try (intros [? ?]; lra); try (intros; lra).
    all: intros H; exfalso; apply H; split; assumption.
Qed.

(** The second end-to-end scenario of the specification: fused 0.70 with
    match fraction 0.50 is rejected. *)
Example pick_best_needs_both :
  pick_best
    [mkCandidateScore "id" "url" "title" None None 3 0.50 0.70 0 0.70 0 ""]
  = None.
Proof. reflexivity. Qed.

Lemma duration_ok_falsy (d : Q) (c : option Q) :
  truthy_opt_float c = false -> _duration_ok d c = true.
Proof. intros H. unfold _duration_ok. rewrite H. reflexivity. Qed.

Section Gate.

Import PrimFloat.

Local Open Scope float_scope.

(** The difference between a reference of [d] seconds and a candidate of
    [y] seconds, as binary64 computes it, is out of the tolerance of the
    tier of [d]: not within 8 s for a reference of at most 60 s, not
    within 12 s for one of at most 180 s, not within 20 s for a longer
    one.  (For numbers, not within is the same as exceeds; a NaN is within
    nothing.) *)
Definition exceeds_tolerance (d y : float) : Prop :=
  ((d <=? 60) = true /\ (abs (d - y) <=? 8) = false) \/
  ((d <=? 60) = false /\ (d <=? 180) = true /\
   (abs (d - y) <=? 12) = false) \/
  ((d <=? 60) = false /\ (d <=? 180) = false /\
   (abs (d - y) <=? 20) = false).

(** The duration gate as the specification words it: rejection exactly
    when the candidate's duration is known and out of tolerance. *)
Definition duration_gate_as_stated (d : float) (c : option float) : Prop :=
  Binary64._duration_ok d c = false <->
  exists y, c = Some y /\ exceeds_tolerance d y.

(** C4, as stated, fails for a candidate whose reported duration is 0:
    that duration is known and its difference to a 50 s reference is 50 s,
    above the 8 s tolerance, so the gate as stated rejects; the code lets
    the candidate pass. *)
Lemma duration_gate_zero_counterexample :
  (exists y, Some 0 = Some y /\ exceeds_tolerance 50 y) /\
  Binary64._duration_ok 50 (Some 0) = true /\
  (duration_gate_as_stated 50 (Some 0) -> False).
Proof.
  assert (Hexc : exists y, Some 0 = Some y /\ exceeds_tolerance 50 y).
  { exists 0. split; [reflexivity|]. left. split; reflexivity. }
  split; [exact Hexc|]. split; [reflexivity|].
  unfold duration_gate_as_stated. intros [_ H].
  specialize (H Hexc). vm_compute in H. discriminate.
Qed.

(** C4, amended.  The gate rejects exactly when the candidate's duration
    is known, is not zero, and its difference to the reference, as binary64
    computes it, is out of the tolerance of 8 s (reference at most 60 s),
    12 s (at most 180 s) or 20 s (longer); an unknown duration always
    passes, and 50 s against 59 s is rejected.  It is the rounded
    difference that counts: 8.1 s against 16.1 s is rejected, the
    difference being computed as 8.000000000000002, and
    0.0999999999999996 s against 8.1 s passes, the difference being
    computed as 8. *)
#[warnings="-inexact-float"]
Theorem duration_gate :
  (forall (d : float) (c : option float),
     Binary64._duration_ok d c = false <->
     exists y, c = Some y /\ (y =? 0) = false /\ exceeds_tolerance d y) /\
  (forall d : float, Binary64._duration_ok d None = true) /\
  Binary64._duration_ok 50 (Some 59) = false /\
  Binary64._duration_ok 8.1 (Some 16.1) = false /\
  Binary64._duration_ok 0.0999999999999996 (Some 8.1) = true.
Proof.
  split; [|repeat split].
  intros d [y|]; unfold Binary64._duration_ok, exceeds_tolerance;
    cbn [Binary64.truthy_opt_float default].
  - unfold Binary64.truthy_float.
    destruct (y =? 0) eqn:E0; cbn [negb].
    + split; [discriminate|]. intros (y' & [= <-] & H & _). congruence.
    + destruct (d <=? 60) eqn:E60; [|destruct (d <=? 180) eqn:E180]; split.
      all: try (intros H; exists y; split; [reflexivity|];
                split; [exact E0|]; tauto).
      all: intros (y' & [= <-] & _ & [H|[H|H]]); intuition congruence.
  - split; [discriminate|]. intros (y & H & _). discriminate.
Qed.

End Gate.

(** C10.  A candidate whose reported duration is zero passes the gate
    for every reference duration: zero is falsy, like an unknown
    duration. *)
Theorem duration_ok_zero (d y : Q) :
  y == 0 -> _duration_ok d (Some y) = true.
Proof.
  intros Hy. apply duration_ok_falsy. simpl. unfold truthy_float.
  apply Qeq_bool_iff in Hy. rewrite Hy. reflexivity.
Qed.

Lemma duration_ok_zero_witness :
  0 == 0 /\ _duration_ok 50 (Some 0) = true.
Proof.
  split; [reflexivity|]. apply (duration_ok_zero 50 0). reflexivity.
Defined.

End MatcherSpec.

(** ** Score fusion ([fuse_scores]) *)

Module FusionSpec.

Import PrimFloat Binary64.

Local Open Scope float_scope.

(** The statistics of a visual match of frame score [s], every frame
    matched at distance 0. *)
Definition stats_of_score (s : float) : FrameMatchStats :=
  mkFrameMatchStats 0 0 0 0 1 s.

(** The statistics of a perfect visual match. *)
Definition perfect_stats : FrameMatchStats := stats_of_score 1.

(** The fusion claim as the specification words it: audio never lowers
    the frame score. *)
Definition audio_never_subtracts (st : FrameMatchStats) (a : float) : Prop :=
  (score st <=? fused (fuse_scores st a)) = true.

(** C2, as stated, fails: a perfect visual match (frame score 1) with a
    positive audio similarity of 0.5 is fused to 0.85, below the frame
    score. *)
#[warnings="-inexact-float"]
Lemma fuse_scores_lowers_counterexample :
  fused (fuse_scores perfect_stats 0.5) = 0.85 /\
  (fused (fuse_scores perfect_stats 0.5) <? score perfect_stats) = true /\
  (audio_never_subtracts perfect_stats 0.5 -> False).
Proof.
  split; [reflexivity|]. split; [reflexivity|].
  unfold audio_never_subtracts. vm_compute. discriminate.
Qed.

(** C2, amended.  An audio similarity that is not positive (absent, zero
    or negative) leaves the frame score as it is, so never lowers it: the
    fused score is then at least the frame score, whenever that is a
    number.  A positive one can lower it, and not only when it is below the
    frame score: an audio similarity equal to the frame score 0.4 is fused
    to 0.39999999999999997. *)
#[warnings="-inexact-float"]
Theorem fuse_scores_keeps_frame_score :
  (forall (st : FrameMatchStats) (a : float),
     (0 <? a) = false ->
     fused (fuse_scores st a) = score st /\
     ((score st <=? score st) = true -> audio_never_subtracts st a)) /\
  (0 <? 0.4) = true /\
  fused (fuse_scores (stats_of_score 0.4) 0.4) = 0.39999999999999997 /\
  (fused (fuse_scores (stats_of_score 0.4) 0.4) <? 0.4) = true.
Proof.
  split; [|repeat split].
  intros st a Ha. unfold audio_never_subtracts, fuse_scores. cbn [fused].
  rewrite Ha. split; [reflexivity|]. intros H. exact H.
Qed.

(** The monotonicity that the specification states: with the frame
    statistics fixed, a larger positive audio similarity gives a larger
    fused score. *)
Definition strictly_increasing (st : FrameMatchStats) : Prop :=
  forall a a' : float,
    (0 <? a) = true -> (a <? a') = true ->
    (fused (fuse_scores st a) <? fused (fuse_scores st a')) = true.

(** C3, as stated, fails in its last part: at frame score 1 the audio
    similarity 0.5 and the next number above it are both fused to 0.85. *)
#[warnings="-inexact-float"]
Lemma fuse_scores_not_strict_counterexample :
  (0 <? 0.5) = true /\
  (0.5 <? 0x1.0000000000001p-1) = true /\
  fused (fuse_scores perfect_stats 0.5) = 0.85 /\
  fused (fuse_scores perfect_stats 0x1.0000000000001p-1) = 0.85 /\
  (strictly_increasing perfect_stats -> False).
Proof.
  repeat split.
  intros H. specialize (H 0.5 0x1.0000000000001p-1 eq_refl eq_refl).
  vm_compute in H. discriminate.
Qed.

(** C3, amended.  With a positive audio similarity [a] the fused score
    is [0.7 * frame_score + 0.3 * a], the two products and the sum rounded;
    with [a] zero, negative or not a number it is the frame score itself.
    Nothing is said of strict growth in [a]: rounding can give two audio
    similarities the same fused score. *)
#[warnings="-inexact-float"]
Theorem fuse_scores_formula (st : FrameMatchStats) (a : float) :
  ((0 <? a) = true ->
   fused (fuse_scores st a) = 0.7 * score st + 0.3 * a) /\
  ((0 <? a) = false -> fused (fuse_scores st a) = score st).
Proof.
  unfold fuse_scores. cbn [fused].
  split; intros Ha; rewrite Ha; reflexivity.
Qed.

(** At frame score 1 and audio similarity 1 the fused score is 1
    exactly: the rounded [0.7 + 0.3] is 1. *)
#[warnings="-inexact-float"]
Example fuse_scores_top :
  fused (fuse_scores perfect_stats 1) = 1.
Proof. reflexivity. Qed.

End FusionSpec.

(** ** Hashes and Hamming distances *)

Module HashFacts.

Import ImageHash Fingerprint.

(** A well-formed 64-bit hash string: sixteen hexadecimal digits. *)
Definition valid_hash (hx : string) : Prop :=
  String.length hx = 16%nat /\
  Forall (fun c => is_Some (hex_val c)) (list_ascii_of_string hx).

(** The parsed form of a 64-bit hash. *)
Definition bits64 (h : list bool) : Prop := length h = 64%nat.

(** A Hamming distance between 64-bit hashes. *)
Definition dist64 (d : Z) : Prop := (0 <= d <= 64)%Z.

Lemma hex_bits_length (s : string) :
  Forall (fun c => is_Some (hex_val c)) (list_ascii_of_string s) ->
  exists bs, hex_bits s = Some bs /\ length bs = (4 * String.length s)%nat.
Proof.
  induction s as [|c s IH]; simpl; intros Hall.
  - exists []. split; reflexivity.
  - inversion Hall as [|? ? [v Hv] Hrest]; subst.
    destruct (IH Hrest) as (bs & Hbs & Hlen).
    exists (nibble_bits v ++ bs). rewrite Hv, Hbs. simpl.
    split; [reflexivity|]. rewrite Hlen. lia.
Qed.

Lemma hex_to_hash_valid (hx : string) :
  valid_hash hx -> exists bs, _hex_to_hash hx = Ok bs /\ bits64 bs.
Proof.
  intros [Hlen Hall].
  destruct (hex_bits_length hx Hall) as (bs & Hbs & Hl).
  exists bs. unfold _hex_to_hash, hex_to_hash, bits64.
  destruct hx as [|c hx]; [discriminate Hlen|].
  rewrite Hbs. split; [reflexivity|]. rewrite Hl, Hlen. reflexivity.
Qed.

Lemma mapM_hex_valid (l : list string) :
  Forall valid_hash l ->
  exists hs, mapM _hex_to_hash l = Ok hs /\ Forall bits64 hs /\
             length hs = length l.
Proof.
  induction 1 as [|hx l Hhx _ IH].
  - exists []. repeat split. constructor.
  - destruct (hex_to_hash_valid hx Hhx) as (bs & Hbs & Hb).
    destruct IH as (hs & Hhs & Hall & Hlen).
    exists (bs :: hs). simpl. rewrite Hbs. simpl. rewrite Hhs. simpl.
    repeat split; [constructor; assumption | lia].
Qed.

Lemma count_diff_le (a b : list bool) : (count_diff a b <= length a)%nat.
Proof.
  revert b. induction a as [|x a IH]; intros [|y b]; simpl; try lia.
  specialize (IH b). destruct (xorb x y); lia.
Qed.

Lemma count_diff_self (a : list bool) : count_diff a a = 0%nat.
Proof.
  induction a as [|x a IH]; simpl; [reflexivity|].
  rewrite xorb_nilpotent, IH. reflexivity.
Qed.

Lemma hamming_bounds (a b : list bool) :
  bits64 a -> bits64 b -> exists d, _hamming a b = Ok d /\ dist64 d.
Proof.
  unfold bits64, _hamming, sub, dist64. intros Ha Hb.
  rewrite Ha, Hb. simpl.
  eexists. split; [reflexivity|].
  pose proof (count_diff_le a b). lia.
Qed.

Lemma hamming_self (a : list bool) : _hamming a a = Ok 0%Z.
Proof.
  unfold _hamming, sub. rewrite Nat.eqb_refl, count_diff_self. reflexivity.
Qed.

Lemma mapM_hamming (B : list (list bool)) (ha : list bool) :
  Forall bits64 B -> bits64 ha ->
  exists ds, mapM (_hamming ha) B = Ok ds /\ length ds = length B /\
             Forall dist64 ds /\ (In ha B -> In 0%Z ds).
Proof.
  intros HB Hha. induction HB as [|hb B Hhb _ IH].
  - exists []. repeat split; [constructor | intros []].
  - destruct (hamming_bounds ha hb Hha Hhb) as (d & Hd & Hr).
    destruct IH as (ds & Hds & Hlen & Hall & Hin).
    exists (d :: ds). simpl. rewrite Hd. simpl. rewrite Hds. simpl.
    repeat split; [lia | constructor; assumption |].
    intros [->|Hi].
    + left. rewrite hamming_self in Hd. congruence.
    + right. auto.
Qed.

Lemma fold_left_min_spec (l : list Z) (x : Z) :
  let m := fold_left Z.min l x in
  (m = x \/ In m l) /\ (m <= x)%Z /\ Forall (fun y => (m <= y)%Z) l.
Proof.
  revert x. induction l as [|y l IH]; intros x; simpl.
  - repeat split; [left; reflexivity | lia | constructor].
  - destruct (IH (Z.min x y)) as ([Hm|Hm] & Hle & Hall).
    + repeat split; [| lia |].
      * destruct (Z.min_spec x y) as [[_ E]|[_ E]]; rewrite E in *;
          [left; exact Hm | right; left; symmetry; exact Hm].
      * constructor; [lia | assumption].
    + repeat split; [auto | lia |].
      constructor; [lia | assumption].
Qed.

Lemma min_of_spec (ds : list Z) :
  ds <> [] ->
  exists d, min_of ds = Ok d /\ In d ds /\ Forall (fun y => (d <= y)%Z) ds.
Proof.
  destruct ds as [|x l]; [congruence|]. intros _.
  destruct (fold_left_min_spec l x) as (Hm & Hle & Hall).
  exists (fold_left Z.min l x). simpl. repeat split.
  - destruct Hm as [->|Hm]; auto.
  - constructor; assumption.
Qed.

Lemma nearest_spec (B : list (list bool)) (ha : list bool) :
  Forall bits64 B -> B <> [] -> bits64 ha ->
  exists d, nearest B ha = Ok d /\ dist64 d /\ (In ha B -> d = 0%Z).
Proof.
  intros HB Hne Hha.
  destruct (mapM_hamming B ha HB Hha) as (ds & Hds & Hlen & Hall & Hin).
  assert (Hds_ne : ds <> []).
  { intros ->. destruct B; [congruence | discriminate]. }
  destruct (min_of_spec ds Hds_ne) as (d & Hd & Hmem & Hmin).
  exists d. unfold nearest. rewrite Hds. simpl. rewrite Hd.
  split; [reflexivity|].
  rewrite List.Forall_forall in Hall, Hmin.
  split; [apply Hall, Hmem|].
  intros Hi. specialize (Hmin _ (Hin Hi)).
  specialize (Hall _ Hmem). unfold dist64 in Hall. lia.
Qed.

Lemma mapM_nearest (B A : list (list bool)) :
  Forall bits64 B -> B <> [] -> Forall bits64 A ->
  exists dists, mapM (nearest B) A = Ok dists /\
                length dists = length A /\ Forall dist64 dists /\
                ((forall ha, In ha A -> In ha B) ->
                 Forall (fun d => d = 0%Z) dists).
Proof.
  intros HB Hne HA. induction HA as [|ha A Hha _ IH].
  - exists []. repeat split; constructor.
  - destruct (nearest_spec B ha HB Hne Hha) as (d & Hd & Hr & Hz).
    destruct IH as (ds & Hds & Hlen & Hall & Hzs).
    exists (d :: ds). simpl. rewrite Hd. simpl. rewrite Hds. simpl.
    repeat split; [lia | constructor; assumption |].
    intros Hsub. constructor.
    + apply Hz, Hsub. left. reflexivity.
    + apply Hzs. intros h Hh. apply Hsub. right. exact Hh.
Qed.

End HashFacts.

(** ** Statistics of a distance array *)

Module NpFacts.

(** A value between 0 and the maximal Hamming distance. *)
Definition within64 (x : Q) : Prop := 0 <= x <= 64.

(** A share: a value between 0 and 1. *)
Definition unit_range (x : Q) : Prop := 0 <= x <= 1.

Lemma sort_Forall (P : Q -> Prop) (arr : list Q) :
  Forall P arr -> Forall P (Np.sort arr).
Proof.
  intros H. unfold Np.sort.
  apply (Permutation_Forall (Permutation_sym (merge_sort_Permutation Qle arr))).
  exact H.
Qed.

Lemma nth_Forall_default (P : Q -> Prop) (l : list Q) (d : Q) (i : nat) :
  Forall P l -> P d -> P (nth i l d).
Proof.
  intros Hl Hd. revert i. induction Hl as [|x l Hx _ IH]; intros [|i]; simpl; auto.
Qed.

Lemma size_cons (x : Q) (arr : list Q) : Np.size (x :: arr) == Np.size arr + 1.
Proof.
  unfold Np.size. simpl length. rewrite Nat2Z.inj_succ, <- Z.add_1_r.
  rewrite inject_Z_plus. reflexivity.
Qed.

Lemma size_nonneg (arr : list Q) : 0 <= Np.size arr.
Proof.
  unfold Np.size. rewrite <- (Zle_Qle 0). lia.
Qed.

Lemma size_pos (arr : list Q) : arr <> [] -> 0 < Np.size arr.
Proof.
  destruct arr as [|x arr]; [congruence|]. intros _.
  rewrite size_cons. pose proof (size_nonneg arr). lra.
Qed.

Lemma sum_range (arr : list Q) :
  Forall within64 arr -> 0 <= Np.sum arr <= 64 * Np.size arr.
Proof.
  induction 1 as [|x arr [Hx0 Hx1] _ IH].
  - change (Np.sum []) with 0. change (Np.size []) with 0. lra.
  - rewrite size_cons. change (Np.sum (x :: arr)) with (x + Np.sum arr). lra.
Qed.

Lemma mean_range (arr : list Q) :
  arr <> [] -> Forall within64 arr -> within64 (Np.mean arr).
Proof.
  intros Hne Hall. pose proof (size_pos arr Hne) as Hpos.
  destruct (sum_range arr Hall) as [H0 H1].
  unfold within64, Np.mean. split.
  - apply Qle_shift_div_l; [exact Hpos | lra].
  - apply Qle_shift_div_r; [exact Hpos | lra].
Qed.

Lemma median_range (arr : list Q) :
  Forall within64 arr -> within64 (Np.median arr).
Proof.
  intros Hall. pose proof (sort_Forall _ _ Hall) as Hs.
  assert (H0 : within64 0) by (unfold within64; lra).
  unfold Np.median.
  destruct (Nat.even (length arr)).
  - pose proof (nth_Forall_default _ _ 0 (length arr / 2 - 1) Hs H0) as [? ?].
    pose proof (nth_Forall_default _ _ 0 (length arr / 2) Hs H0) as [? ?].
    unfold within64. split.
    + apply Qle_shift_div_l; lra.
    + apply Qle_shift_div_r; lra.
  - apply nth_Forall_default; assumption.
Qed.

Lemma median_zero (arr : list Q) :
  Forall (fun x => x == 0) arr -> Np.median arr == 0.
Proof.
  intros Hall. pose proof (sort_Forall _ _ Hall) as Hs.
  assert (H0 : 0 == 0) by reflexivity.
  unfold Np.median.
  destruct (Nat.even (length arr)).
  - rewrite (nth_Forall_default _ _ 0 (length arr / 2 - 1) Hs H0).
    rewrite (nth_Forall_default _ _ 0 (length arr / 2) Hs H0).
    reflexivity.
  - apply (nth_Forall_default _ _ 0 _ Hs H0).
Qed.

Lemma percentile_range (arr : list Q) (q : Q) :
  Forall within64 arr -> within64 (Np.percentile arr q).
Proof.
  intros Hall. pose proof (sort_Forall _ _ Hall) as Hs.
  assert (H0 : within64 0) by (unfold within64; lra).
  unfold Np.percentile.
  set (vi := inject_Z (Z.of_nat (length arr) - 1) * (q / 100)).
  pose proof (Qfloor_le vi) as Hlo.
  pose proof (Qlt_floor vi) as Hhi.
  rewrite inject_Z_plus in Hhi.
  set (lo := Qfloor vi) in *.
  pose proof (nth_Forall_default _ _ 0 (Z.to_nat lo) Hs H0) as [? ?].
  pose proof (nth_Forall_default _ _ 0
                (Z.to_nat (Z.min (lo + 1) (Z.of_nat (length arr) - 1))) Hs H0)
    as [? ?].
  unfold within64.
  assert (Hg0 : 0 <= vi - inject_Z lo) by lra.
  assert (Hg1 : vi - inject_Z lo <= 1) by (change (inject_Z 1) with 1 in Hhi; lra).
  generalize dependent (vi - inject_Z lo). intros g Hg0 Hg1.
  split; nra.
Qed.

Lemma count_le_size (P : Q -> Prop) `{!forall x, Decision (P x)} (arr : list Q) :
  inject_Z (Z.of_nat (length (filter P arr))) <= Np.size arr.
Proof.
  unfold Np.size. rewrite <- Zle_Qle.
  pose proof (length_filter P arr). lia.
Qed.

Lemma mean_le_range (arr : list Q) (t : Z) :
  arr <> [] -> unit_range (Np.mean_le arr t).
Proof.
  intros Hne. pose proof (size_pos arr Hne) as Hpos.
  unfold unit_range, Np.mean_le. split.
  - apply Qle_shift_div_l; [exact Hpos|].
    rewrite Qmult_0_l. rewrite <- (Zle_Qle 0). lia.
  - apply Qle_shift_div_r; [exact Hpos|].
    rewrite Qmult_1_l. apply count_le_size.
Qed.

Lemma filter_all (P : Q -> Prop) `{!forall x, Decision (P x)} (arr : list Q) :
  Forall P arr -> filter P arr = arr.
Proof.
  induction 1 as [|x arr Hx _ IH]; [reflexivity|].
  rewrite filter_cons_True by assumption. rewrite IH. reflexivity.
Qed.

Lemma mean_le_all (arr : list Q) (t : Z) :
  arr <> [] -> Forall (fun x => x <= inject_Z t) arr -> Np.mean_le arr t == 1.
Proof.
  intros Hne Hall. pose proof (size_pos arr Hne) as Hpos.
  unfold Np.mean_le. rewrite filter_all.
  - fold (Np.size arr). unfold Qdiv. apply Qmult_inv_r. lra.
  - eapply Forall_impl; [exact Hall|]. intros x Hx. apply Qle_bool_iff, Hx.
Qed.

End NpFacts.

(** ** Frame similarity ([frame_similarity_score]) *)

Module FrameSpec.

Import Fingerprint HashFacts NpFacts.

Lemma div64 (m : Q) : m / 64.0 == m * (1 # 64).
Proof. unfold Qdiv. apply Qmult_comp; reflexivity. Qed.

Lemma arr_within64 (dists : list Z) :
  Forall dist64 dists -> Forall within64 (inject_Z <$> dists).
Proof.
  intros H. apply Forall_fmap. eapply Forall_impl; [exact H|].
  intros d [Hd0 Hd1]. unfold within64. simpl.
  rewrite (Zle_Qle 0 d) in Hd0. rewrite (Zle_Qle d 64) in Hd1.
  split; assumption.
Qed.

Lemma arr_nonempty (dists : list Z) :
  dists <> [] -> inject_Z <$> dists <> [].
Proof. destruct dists; [congruence | discriminate]. Qed.

Lemma closeness_range (m : Q) :
  within64 m -> unit_range (Py.max 0.0 (1.0 - m / 64.0)).
Proof.
  intros [H0 H1]. unfold unit_range.
  destruct (max_spec 0.0 (1.0 - m / 64.0)) as [[Hc ->]|[Hc ->]].
  - rewrite div64 in *. lra.
  - lra.
Qed.

(** The statistics of any non-empty array of Hamming distances between
    64-bit hashes stay in range. *)
Lemma stats_of_dists_range (dists : list Z) (t : Z) :
  dists <> [] -> Forall dist64 dists ->
  let st := stats_of_dists dists t in
  unit_range (match_frac st) /\ unit_range (score st) /\
  within64 (median st) /\ within64 (mean st) /\
  within64 (p25 st) /\ within64 (p75 st).
Proof.
  intros Hne Hall. simpl.
  pose proof (arr_within64 dists Hall) as Harr.
  pose proof (arr_nonempty dists Hne) as Hane.
  pose proof (mean_le_range (inject_Z <$> dists) t Hane) as Hmf.
  pose proof (median_range _ Harr) as Hmed.
  pose proof (closeness_range _ Hmed) as Hcl.
  repeat split; try apply Hmf; try apply Hmed;
    try (apply mean_range; assumption);
    try (apply percentile_range; assumption).
  - destruct Hmf, Hcl. lra.
  - destruct Hmf, Hcl. lra.
Qed.

(** The statistics of a non-empty array of zero distances. *)
Lemma stats_of_zero_dists (dists : list Z) (t : Z) :
  dists <> [] -> Forall (fun d => d = 0%Z) dists -> (0 <= t)%Z ->
  let st := stats_of_dists dists t in
  median st == 0 /\ match_frac st == 1 /\ score st == 1.
Proof.
  intros Hne Hall Ht. simpl.
  pose proof (arr_nonempty dists Hne) as Hane.
  assert (Hz : Forall (fun x => x == 0) (inject_Z <$> dists)).
  { apply Forall_fmap. eapply Forall_impl; [exact Hall|].
    intros d ->. simpl. reflexivity. }
  assert (Hle : Forall (fun x => x <= inject_Z t) (inject_Z <$> dists)).
  { apply Forall_fmap. eapply Forall_impl; [exact Hall|].
    intros d ->. simpl. rewrite <- Zle_Qle. exact Ht. }
  pose proof (median_zero _ Hz) as Hmed.
  pose proof (mean_le_all _ t Hane Hle) as Hmf.
  split; [exact Hmed|]. split; [exact Hmf|].
  destruct (max_spec 0.0 (1.0 - Np.median (inject_Z <$> dists) / 64.0))
    as [[Hc ->]|[Hc ->]]; rewrite div64 in *; lra.
Qed.

(** What the call does on two lists of valid hashes, the second one not
    empty: the distances it collects. *)
Lemma frame_similarity_dists (cfg : CFG) (a b : list string)
    (threshold : option Z) :
  a <> [] -> b <> [] -> Forall valid_hash a -> Forall valid_hash b ->
  exists dists,
    frame_similarity_score cfg a b threshold
      = Ok (stats_of_dists dists (default (hash_threshold cfg) threshold)) /\
    dists <> [] /\ Forall dist64 dists /\
    (a = b -> Forall (fun d => d = 0%Z) dists).
Proof.
  intros Ha Hb Hva Hvb.
  destruct (mapM_hex_valid a Hva) as (HA & HpA & HbA & HlA).
  destruct (mapM_hex_valid b Hvb) as (HB & HpB & HbB & HlB).
  assert (HBne : HB <> []).
  { intros ->. destruct b; [congruence | discriminate]. }
  destruct (mapM_nearest HB HA HbB HBne HbA) as (dists & Hd & Hl & Hr & Hz).
  exists dists. unfold frame_similarity_score.
  destruct a as [|a0 a']; [congruence|].
  destruct b as [|b0 b']; [congruence|].
  cbn [truthy_list negb orb].
  rewrite HpA. cbn [mbind result_bind]. rewrite HpB. cbn [mbind result_bind].
  rewrite Hd. cbn [mbind result_bind].
  split; [reflexivity|].
  split; [intros ->; destruct HA; discriminate|].
  split; [exact Hr|].
  intros Heq. apply Hz. intros ha Hin.
  rewrite Heq in HpA. rewrite HpA in HpB. injection HpB as <-. exact Hin.
Qed.

(** The statistics returned when there is nothing to compare. *)
Definition worst_stats : FrameMatchStats :=
  mkFrameMatchStats 64.0 64.0 64.0 64.0 0.0 0.0.

Lemma frame_similarity_guard (cfg : CFG) (a b : list string)
    (threshold : option Z) :
  a = [] \/ b = [] ->
  frame_similarity_score cfg a b threshold = Ok worst_stats.
Proof.
  unfold frame_similarity_score.
  intros [-> | ->]; [reflexivity|].
  destruct a; reflexivity.
Qed.

Lemma worst_stats_range :
  unit_range (match_frac worst_stats) /\ unit_range (score worst_stats) /\
  within64 (median worst_stats) /\ within64 (mean worst_stats) /\
  within64 (p25 worst_stats) /\ within64 (p75 worst_stats).
Proof.
  unfold unit_range, within64, worst_stats. simpl. repeat split; lra.
Qed.

(** C5.  Comparing a non-empty list of valid hashes with itself, under
    any non-negative threshold (given, or the configured default), returns
    median 0, match fraction 1 and frame score 1. *)
Theorem frame_similarity_self (cfg : CFG) (A : list string)
    (threshold : option Z) :
  A <> [] -> Forall valid_hash A ->
  (0 <= default (hash_threshold cfg) threshold)%Z ->
  exists st,
    frame_similarity_score cfg A A threshold = Ok st /\
    median st == 0 /\ match_frac st == 1 /\ score st == 1.
Proof.
  intros Hne Hv Ht.
  destruct (frame_similarity_dists cfg A A threshold Hne Hne Hv Hv)
    as (dists & Hrun & Hdne & _ & Hz).
  eexists. split; [exact Hrun|].
  apply stats_of_zero_dists; auto.
Qed.

(** C6.  When either list is empty the call returns, without raising and
    whatever the other list holds, the worst statistics: median, mean and
    both percentiles 64, match fraction 0 and frame score 0. *)
Theorem frame_similarity_empty (cfg : CFG) (a b : list string)
    (threshold : option Z) :
  a = [] \/ b = [] ->
  exists st,
    frame_similarity_score cfg a b threshold = Ok st /\
    median st == 64 /\ mean st == 64 /\ p25 st == 64 /\ p75 st == 64 /\
    match_frac st == 0 /\ score st == 0.
Proof.
  intros Hempty.
  exists worst_stats.
  split; [apply frame_similarity_guard, Hempty|].
  repeat split; reflexivity.
Qed.

(** C9.  On lists of valid 64-bit hash strings, under any threshold, the
    call returns statistics in range: match fraction and frame score in
    [0, 1]; median, mean and both percentiles in [0, 64]. *)
Theorem frame_similarity_ranges (cfg : CFG) (a b : list string)
    (threshold : option Z) :
  Forall valid_hash a -> Forall valid_hash b ->
  exists st,
    frame_similarity_score cfg a b threshold = Ok st /\
    unit_range (match_frac st) /\ unit_range (score st) /\
    within64 (median st) /\ within64 (mean st) /\
    within64 (p25 st) /\ within64 (p75 st).
Proof.
  intros Hva Hvb.
  destruct a as [|a0 a'].
  - exists worst_stats. split; [|apply worst_stats_range].
    apply frame_similarity_guard. left. reflexivity.
  - destruct b as [|b0 b'].
    + exists worst_stats. split; [|apply worst_stats_range].
      apply frame_similarity_guard. right. reflexivity.
    + destruct (frame_similarity_dists cfg (a0 :: a') (b0 :: b') threshold)
        as (dists & Hrun & Hdne & Hr & _); try assumption; try discriminate.
      eexists. split; [exact Hrun|].
      apply stats_of_dists_range; assumption.
Qed.

(** Sample data: the default configuration of [config.py] and a few
    64-bit hashes. *)
Definition default_cfg : CFG := mkCFG 0.8 8 true.

Definition sample_a : list string :=
  ["ffffffffffffffff"; "0000000000000000"; "00000000000000ff"].

Definition sample_b : list string := ["ffffffffffffff00"].

Ltac valid_hashes :=
  repeat (apply List.Forall_cons;
          [split; [reflexivity
                  | simpl;
                    repeat (apply List.Forall_cons; [eexists; reflexivity|]);
                    apply List.Forall_nil]
          |]);
  apply List.Forall_nil.

Lemma sample_a_valid : Forall valid_hash sample_a.
Proof. unfold sample_a. valid_hashes. Qed.

Lemma sample_b_valid : Forall valid_hash sample_b.
Proof. unfold sample_b. valid_hashes. Qed.

Lemma frame_similarity_self_witness :
  (sample_a <> [] /\ Forall valid_hash sample_a /\
   (0 <= default (hash_threshold default_cfg) None)%Z) /\
  exists st,
    frame_similarity_score default_cfg sample_a sample_a None = Ok st /\
    median st == 0 /\ match_frac st == 1 /\ score st == 1.
Proof.
  assert (Hne : sample_a <> []) by discriminate.
  assert (Ht : (0 <= default (hash_threshold default_cfg) None)%Z)
    by (simpl; lia).
  split; [repeat split; [exact Hne | exact sample_a_valid | exact Ht]|].
  exact (frame_similarity_self default_cfg sample_a None
           Hne sample_a_valid Ht).
Defined.

Lemma frame_similarity_empty_witness :
  (@nil string = [] \/ ["zz"%string] = []) /\
  exists st,
    frame_similarity_score default_cfg [] ["zz"%string] (Some 8%Z) = Ok st /\
    median st == 64 /\ mean st == 64 /\ p25 st == 64 /\ p75 st == 64 /\
    match_frac st == 0 /\ score st == 0.
Proof.
  split; [left; reflexivity|].
  exact (frame_similarity_empty default_cfg [] ["zz"%string] (Some 8%Z)
           (or_introl eq_refl)).
Defined.

Lemma frame_similarity_ranges_witness :
  (Forall valid_hash sample_a /\ Forall valid_hash sample_b) /\
  exists st,
    frame_similarity_score default_cfg sample_a sample_b (Some 8%Z) = Ok st /\
    unit_range (match_frac st) /\ unit_range (score st) /\
    within64 (median st) /\ within64 (mean st) /\
    within64 (p25 st) /\ within64 (p75 st).
Proof.
  split; [split; [exact sample_a_valid | exact sample_b_valid]|].
  exact (frame_similarity_ranges default_cfg sample_a sample_b (Some 8%Z)
           sample_a_valid sample_b_valid).
Defined.

(** The call on the sample data, evaluated: distances 8, 56 and 64. *)
Example frame_similarity_sample :
  exists st,
    frame_similarity_score default_cfg sample_a sample_b (Some 8%Z) = Ok st /\
    median st == 56 /\ mean st == 128 # 3 /\ p25 st == 32 /\ p75 st == 60 /\
    match_frac st == 1 # 3 /\ score st == 0.25.
Proof.
  eexists. split; [vm_compute; reflexivity|].
  repeat split; reflexivity.
Qed.

End FrameSpec.

(** ** Audio similarity ([cosine], [audio_similarity_score]) *)

Module AudioSpec.

Import Fingerprint.

(** An audio fingerprint that is absent: [None], or an empty vector. *)
Definition absent (v : option (list Q)) : Prop := v = None \/ v = Some [].

Lemma absent_falsy (v : option (list Q)) :
  absent v <-> truthy_opt_list v = false.
Proof.
  unfold absent. destruct v as [[|x l]|]; simpl; split;
    try (intros [H|H]; congruence); auto; discriminate.
Qed.

Lemma Qmult_swap (x y : Q) : x * y = y * x.
Proof.
  unfold Qmult. rewrite (Z.mul_comm (Qnum x)), (Pos.mul_comm (Qden x)).
  reflexivity.
Qed.

Lemma dot_prod_sym (a b : list Q) : Np.dot_prod a b = Np.dot_prod b a.
Proof.
  revert b. induction a as [|x a IH]; intros [|y b]; simpl; try reflexivity.
  rewrite (Qmult_swap x y), (IH b). reflexivity.
Qed.

Lemma dot_sym (a b : list Q) : Np.dot a b = Np.dot b a.
Proof.
  unfold Np.dot. rewrite (Nat.eqb_sym (length a)), dot_prod_sym. reflexivity.
Qed.

Section WithNorm.

Variable norm : list Q -> Q.

Lemma cosine_sym (a b : list Q) : cosine norm a b = cosine norm b a.
Proof.
  unfold cosine. rewrite (orb_comm (Qeq_bool (norm a) 0)).
  rewrite (dot_sym a b), (Qmult_swap (norm a) (norm b)). reflexivity.
Qed.

Lemma clamp_range (c : Q) : 0 <= Py.max 0.0 (Py.min 1.0 c) <= 1.
Proof.
  destruct (max_spec 0.0 (Py.min 1.0 c)) as [[Hc ->]|[Hc ->]];
    destruct (min_spec 1.0 c) as [[Hm E]|[Hm E]]; rewrite ?E in *; lra.
Qed.

(** A negative cosine is clamped to zero. *)
Lemma clamp_negative (c : Q) : c <= 0 -> Py.max 0.0 (Py.min 1.0 c) == 0.
Proof.
  intros Hneg.
  destruct (max_spec 0.0 (Py.min 1.0 c)) as [[Hc ->]|[Hc ->]];
    destruct (min_spec 1.0 c) as [[Hm E]|[Hm E]]; rewrite ?E in *; lra.
Qed.

Lemma audio_similarity_absent (a b : option (list Q)) :
  absent a \/ absent b -> audio_similarity_score norm a b = Ok 0.0.
Proof.
  unfold audio_similarity_score.
  intros [H|H]; apply absent_falsy in H; rewrite H; simpl;
    [reflexivity | rewrite orb_true_r; reflexivity].
Qed.

Lemma audio_similarity_range (a b : option (list Q)) (r : Q) :
  audio_similarity_score norm a b = Ok r -> 0 <= r <= 1.
Proof.
  unfold audio_similarity_score.
  destruct (negb (truthy_opt_list a) || negb (truthy_opt_list b)).
  - intros [= <-]. lra.
  - destruct (cosine norm (default [] a) (default [] b)) as [c|e]; simpl.
    + intros [= <-]. apply clamp_range.
    + discriminate.
Qed.

Lemma audio_similarity_returns (va vb : list Q) :
  length va = length vb ->
  exists r, audio_similarity_score norm (Some va) (Some vb) = Ok r.
Proof.
  intros Hlen. unfold audio_similarity_score.
  destruct (negb (truthy_opt_list (Some va)) || negb (truthy_opt_list (Some vb)));
    [eexists; reflexivity|].
  simpl. unfold cosine.
  destruct (Qeq_bool (norm va) 0 || Qeq_bool (norm vb) 0);
    [eexists; reflexivity|].
  unfold Np.dot. rewrite Hlen, Nat.eqb_refl. eexists. reflexivity.
Qed.

(** C8.  The audio similarity is symmetric in its two arguments; it is
    0.0 whenever either side is absent; whenever it returns, and it does
    for two vectors of the same dimension, the result lies in [0, 1]. *)
Theorem audio_similarity_symmetric_bounded (a b : option (list Q)) :
  audio_similarity_score norm a b = audio_similarity_score norm b a /\
  (absent a \/ absent b -> audio_similarity_score norm a b = Ok 0.0) /\
  (forall r : Q, audio_similarity_score norm a b = Ok r -> 0 <= r <= 1) /\
  (forall va vb : list Q,
     a = Some va -> b = Some vb -> length va = length vb ->
     exists r, audio_similarity_score norm a b = Ok r /\ 0 <= r <= 1).
Proof.
  split; [|split; [|split]].
  - unfold audio_similarity_score.
    rewrite (orb_comm (negb (truthy_opt_list a))).
    rewrite (cosine_sym (default [] a)). reflexivity.
  - apply audio_similarity_absent.
  - apply audio_similarity_range.
  - intros va vb -> -> Hlen.
    destruct (audio_similarity_returns va vb Hlen) as [r Hr].
    exists r. split; [exact Hr|].
    apply (audio_similarity_range _ _ _ Hr).
Qed.

End WithNorm.

End AudioSpec.

(** ** The frame-hash cache ([video_to_frame_hashes]) *)

Module CacheSpec.

Import Fingerprint.

(** The cache file of a signature. *)
Definition cache_path (sig : string) : string := "frames_" +:+ sig +:+ ".json".

(** The record [_save_json] writes for freshly computed hashes. *)
Definition record_of (hashes : list string) : json :=
  JObj (<["ver" := JStr _VER]>
       (<["hashes" := JArr (JStr <$> hashes)]>
       (<["hash_size" := JNum (inject_Z _HASH_SIZE)]> ∅))).

(** What a call does when it recomputes: the fresh hashes are stored under
    the current version and returned; a failing extraction is passed on and
    nothing is stored. *)
Definition recomputed (sig : string) (extracted : result (list string))
    (fs : gmap string file) : result json * gmap string file :=
  match extracted with
  | Raise e => (Raise e, fs)
  | Ok hashes =>
      (Ok (JArr (JStr <$> hashes)), <[cache_path sig := Json (record_of hashes)]> fs)
  end.



Lemma cache_falsy (sig : string) (extracted : result (list string))
    (fs : gmap string file) (v : json) :
  fs !! cache_path sig = Some (Json v) -> truthy_json v = false ->
  video_to_frame_hashes sig extracted fs = recomputed sig extracted fs.
Proof.
  intros Hv Hf. unfold video_to_frame_hashes, _load_json. fold (cache_path sig).
  rewrite Hv. rewrite bool_decide_eq_true_2 by (eexists; reflexivity).
  rewrite Hf. reflexivity.
Qed.


Lemma cache_hit (sig : string) (extracted : result (list string))
    (fs : gmap string file) (m : gmap string json) :
  fs !! cache_path sig = Some (Json (JObj m)) ->
  m !! "ver" = Some (JStr _VER) ->
  video_to_frame_hashes sig extracted fs
  = (Ok (default (JArr []) (m !! "hashes")), fs).
Proof.
  intros Hv Hver. unfold video_to_frame_hashes, _load_json. fold (cache_path sig).
  rewrite Hv. rewrite bool_decide_eq_true_2 by (eexists; reflexivity).
  assert (Hne : m <> ∅).
  { intros ->. rewrite lookup_empty in Hver. discriminate. }
  simpl. rewrite bool_decide_eq_false_2 by exact Hne. simpl.
  rewrite Hver. reflexivity.
Qed.

(** A stored record that parses as JSON, is truthy, and is not an object
    makes [data.get] raise. *)
Lemma cache_non_object (sig : string) (extracted : result (list string))
    (fs : gmap string file) (v : json) :
  fs !! cache_path sig = Some (Json v) ->
  truthy_json v = true ->
  (forall m, v <> JObj m) ->
  video_to_frame_hashes sig extracted fs = (Raise AttributeError, fs).
Proof.
  intros Hv Ht Hno. unfold video_to_frame_hashes, _load_json. fold (cache_path sig).
  rewrite Hv. rewrite bool_decide_eq_true_2 by (eexists; reflexivity).
  rewrite Ht. destruct v; try reflexivity.
  exfalso. eapply Hno. reflexivity.
Qed.

(** C7 at a malformed record.  With the cache file of the signature
    holding the JSON text [[1]], the call raises [AttributeError]: the
    hashes are not recomputed and the file is left as it was. *)
Theorem cache_malformed_record_raises :
  video_to_frame_hashes "sig" (Ok ["8f373714acfcf4d0"])
    {[ cache_path "sig" := Json (JArr [JNum 1]) ]}
  = (Raise AttributeError, {[ cache_path "sig" := Json (JArr [JNum 1]) ]}).
Proof.
  apply cache_non_object with (v := JArr [JNum 1]).
  - apply lookup_singleton_eq.
  - reflexivity.
  - discriminate.
Qed.

(** After a recomputation that succeeded, the next call for the same
    signature is a hit: it returns the same hashes without using the
    extraction and leaves the files unchanged. *)
Theorem cache_recompute_then_hit (sig : string) (hashes : list string)
    (again : result (list string)) (fs : gmap string file) :
  let fs' := snd (recomputed sig (Ok hashes) fs) in
  video_to_frame_hashes sig again fs' = (Ok (JArr (JStr <$> hashes)), fs').
Proof.
  simpl.
  rewrite (cache_hit sig again _
             (<["ver" := JStr _VER]>
             (<["hashes" := JArr (JStr <$> hashes)]>
             (<["hash_size" := JNum (inject_Z _HASH_SIZE)]> ∅)))).
  - rewrite lookup_insert_ne by discriminate.
    rewrite lookup_insert_eq. reflexivity.
  - apply lookup_insert_eq.
  - apply lookup_insert_eq.
Qed.



(** A stored object whose version tag is the current one is returned (its
    ["hashes"] entry, or the empty list when it has none) whatever the
    extraction would give, and the files are left as they were. *)
Theorem cache_hit_returns_stored (sig : string)
    (extracted : result (list string)) (fs : gmap string file)
    (m : gmap string json) :
  fs !! cache_path sig = Some (Json (JObj m)) ->
  m !! "ver" = Some (JStr _VER) ->
  video_to_frame_hashes sig extracted fs
  = (Ok (default (JArr []) (m !! "hashes")), fs).
Proof. apply cache_hit. Qed.

(** The fields of a record stored for one hash. *)
Definition sample_fields : gmap string json :=
  <["ver" := JStr _VER]>
  (<["hashes" := JArr [JStr "8f373714acfcf4d0"]]>
  (<["hash_size" := JNum (inject_Z _HASH_SIZE)]> ∅)).

Lemma cache_hit_returns_stored_witness :
  ((({[ cache_path "sig" := Json (JObj sample_fields) ]} : gmap string file)
      !! cache_path "sig" = Some (Json (JObj sample_fields))) /\
   sample_fields !! "ver" = Some (JStr _VER)) /\
  video_to_frame_hashes "sig" (Raise FFMpegError)
    {[ cache_path "sig" := Json (JObj sample_fields) ]}
  = (Ok (default (JArr []) (sample_fields !! "hashes")),
     {[ cache_path "sig" := Json (JObj sample_fields) ]}).
Proof.
  split; [split; [apply lookup_singleton_eq | apply lookup_insert_eq]|].
  apply (cache_hit_returns_stored "sig" (Raise FFMpegError)
           {[ cache_path "sig" := Json (JObj sample_fields) ]} sample_fields).
  - apply lookup_singleton_eq.
  - apply lookup_insert_eq.
Defined.

End CacheSpec.

(** ** Order statistics of an array: how they move with its elements *)

Module OrderStats.

Import NpFacts.

(** The number of elements at or below [v]. *)
Definition count_le (v : Q) (l : list Q) : nat :=
  length (filter (fun x => x <= v) l).

Lemma Qle_total : Total Qle.
Proof.
  intros x y. destruct (Qlt_le_dec x y) as [H|H]; [left|right]; lra.
Qed.

Lemma Qle_transitive : Transitive Qle.
Proof. intros x y z. apply Qle_trans. Qed.

Lemma sort_sorted (l : list Q) : StronglySorted Qle (Np.sort l).
Proof.
  apply StronglySorted_merge_sort; [apply Qle_transitive | apply Qle_total].
Qed.

Lemma sort_length (l : list Q) : length (Np.sort l) = length l.
Proof.
  unfold Np.sort. apply Permutation_length, merge_sort_Permutation.
Qed.

Lemma count_le_sort (v : Q) (l : list Q) :
  count_le v (Np.sort l) = count_le v l.
Proof.
  unfold count_le, Np.sort. apply Permutation_length.
  apply filter_Permutation, merge_sort_Permutation.
Qed.

Lemma count_le_none (v : Q) (l : list Q) :
  Forall (fun x => v < x) l -> count_le v l = 0%nat.
Proof.
  unfold count_le. induction 1 as [|x l Hx _ IH]; [reflexivity|].
  rewrite filter_cons_False by lra. exact IH.
Qed.

(** In a sorted array the elements at or below [v] are the first ones. *)
Lemma sorted_nth_le (s : list Q) (k : nat) (v : Q) :
  StronglySorted Qle s ->
  (k < count_le v s)%nat <-> (k < length s)%nat /\ nth k s 0 <= v.
Proof.
  intros Hs. revert k. induction Hs as [|x s Hs IH Hall]; intros k.
  - unfold count_le. simpl. split; [lia | intros [? _]; lia].
  - destruct (Qlt_le_dec v x) as [Hlt|Hle].
    + assert (Hnone : count_le v (x :: s) = 0%nat).
      { apply count_le_none. constructor; [exact Hlt|].
        eapply Forall_impl; [exact Hall|]. intros y Hy. simpl in Hy. lra. }
      rewrite Hnone. split; [lia|]. intros [Hk Hn]. exfalso.
      assert (Hx : x <= nth k (x :: s) 0).
      { destruct k as [|k]; simpl; [lra|].
        simpl in Hk. rewrite List.Forall_forall in Hall.
        apply Hall, nth_In. lia. }
      lra.
    + unfold count_le in *. rewrite filter_cons_True by exact Hle.
      simpl length. destruct k as [|k]; simpl.
      * split; [intros _; split; [lia | exact Hle] | lia].
      * rewrite <- Nat.succ_lt_mono, (IH k). rewrite <- Nat.succ_lt_mono.
        reflexivity.
Qed.

(** If every level [v] has at least as many elements of [l'] at or below
    it as of [l], each order statistic of [l'] is at most that of [l]. *)
Lemma nth_sort_mono (l l' : list Q) (k : nat) :
  length l = length l' ->
  (forall v, (count_le v l <= count_le v l')%nat) ->
  nth k (Np.sort l') 0 <= nth k (Np.sort l) 0.
Proof.
  intros Hlen Hcnt.
  destruct (Nat.lt_ge_cases k (length l)) as [Hk|Hk].
  - set (v := nth k (Np.sort l) 0).
    assert (H1 : (k < count_le v (Np.sort l))%nat).
    { apply sorted_nth_le; [apply sort_sorted|].
      split; [rewrite sort_length; exact Hk | unfold v; lra]. }
    rewrite count_le_sort in H1.
    specialize (Hcnt v).
    assert (H2 : (k < count_le v (Np.sort l'))%nat)
      by (rewrite count_le_sort; lia).
    apply sorted_nth_le in H2; [|apply sort_sorted].
    apply H2.
  - rewrite !nth_overflow; [lra | rewrite sort_length; lia
                                | rewrite sort_length; lia].
Qed.

Lemma count_le_pointwise (l l' : list Q) (v : Q) :
  Forall2 Qle l' l -> (count_le v l <= count_le v l')%nat.
Proof.
  unfold count_le. induction 1 as [|x' x l' l Hx _ IH]; [reflexivity|].
  destruct (Qlt_le_dec v x) as [Hlt|Hle].
  - rewrite (filter_cons_False _ x) by lra.
    destruct (Qlt_le_dec v x') as [Hlt'|Hle'].
    + rewrite (filter_cons_False _ x') by lra. exact IH.
    + rewrite (filter_cons_True _ x') by exact Hle'. simpl. lia.
  - rewrite (filter_cons_True _ x) by exact Hle.
    rewrite (filter_cons_True _ x') by lra. simpl. lia.
Qed.

Lemma count_le_perm (l l' : list Q) (v : Q) :
  l ≡ₚ l' -> count_le v l = count_le v l'.
Proof.
  intros H. unfold count_le. apply Permutation_length.
  apply filter_Permutation, H.
Qed.

Lemma sum_pointwise (l l' : list Q) :
  Forall2 Qle l' l -> Np.sum l' <= Np.sum l.
Proof.
  induction 1 as [|x' x l' l Hx _ IH].
  - change (Np.sum []) with 0. lra.
  - change (Np.sum (x' :: l')) with (x' + Np.sum l').
    change (Np.sum (x :: l)) with (x + Np.sum l). lra.
Qed.

Lemma sum_perm (l l' : list Q) : l ≡ₚ l' -> Np.sum l == Np.sum l'.
Proof.
  induction 1 as [|x l l' _ IH|x y l|l l' l'' _ IH1 _ IH2].
  - reflexivity.
  - change (Np.sum (x :: l)) with (x + Np.sum l).
    change (Np.sum (x :: l')) with (x + Np.sum l'). lra.
  - change (Np.sum (y :: x :: l)) with (y + (x + Np.sum l)).
    change (Np.sum (x :: y :: l)) with (x + (y + Np.sum l)). lra.
  - lra.
Qed.

(** The four statistics under a condition on the counts. *)
Lemma median_mono (l l' : list Q) :
  length l = length l' ->
  (forall v, (count_le v l <= count_le v l')%nat) ->
  Np.median l' <= Np.median l.
Proof.
  intros Hlen Hcnt. unfold Np.median. rewrite <- Hlen.
  pose proof (nth_sort_mono l l' (length l / 2) Hlen Hcnt).
  pose proof (nth_sort_mono l l' (length l / 2 - 1) Hlen Hcnt).
  destruct (Nat.even (length l)); [|assumption].
  unfold Qdiv. apply Qmult_le_compat_r; [lra | discriminate].
Qed.

Lemma percentile_mono (l l' : list Q) (q : Q) :
  length l = length l' ->
  (forall v, (count_le v l <= count_le v l')%nat) ->
  Np.percentile l' q <= Np.percentile l q.
Proof.
  intros Hlen Hcnt. unfold Np.percentile. rewrite <- Hlen.
  set (vi := inject_Z (Z.of_nat (length l) - 1) * (q / 100)).
  pose proof (Qfloor_le vi) as Hlo.
  pose proof (Qlt_floor vi) as Hhi.
  rewrite inject_Z_plus in Hhi. change (inject_Z 1) with 1 in Hhi.
  set (lo := Qfloor vi) in *.
  pose proof (nth_sort_mono l l' (Z.to_nat lo) Hlen Hcnt) as Ha.
  pose proof (nth_sort_mono l l'
                (Z.to_nat (Z.min (lo + 1) (Z.of_nat (length l) - 1)))
                Hlen Hcnt) as Hb.
  assert (Hg0 : 0 <= vi - inject_Z lo) by lra.
  assert (Hg1 : vi - inject_Z lo <= 1) by lra.
  generalize dependent (vi - inject_Z lo). intros g Hg0 Hg1.
  nra.
Qed.

Lemma mean_le_count (l : list Q) (t : Z) :
  Np.mean_le l t == inject_Z (Z.of_nat (count_le (inject_Z t) l)) / Np.size l.
Proof.
  unfold Np.mean_le, count_le.
  assert (E : filter (fun x => Qle_bool x (inject_Z t) = true) l
              = filter (fun x => x <= inject_Z t) l).
  { induction l as [|x l IH]; [reflexivity|].
    destruct (Qlt_le_dec (inject_Z t) x) as [Hlt|Hle].
    - rewrite (filter_cons_False (fun y => y <= inject_Z t)) by lra.
      rewrite filter_cons_False; [exact IH|].
      rewrite Qle_bool_iff. lra.
    - rewrite (filter_cons_True (fun y => y <= inject_Z t)) by exact Hle.
      rewrite filter_cons_True; [rewrite IH; reflexivity|].
      apply Qle_bool_iff, Hle. }
  rewrite E. reflexivity.
Qed.

Lemma mean_le_mono (l l' : list Q) (t : Z) :
  length l = length l' ->
  (forall v, (count_le v l <= count_le v l')%nat) ->
  Np.mean_le l t <= Np.mean_le l' t.
Proof.
  intros Hlen Hcnt. rewrite !mean_le_count. unfold Np.size. rewrite <- Hlen.
  unfold Qdiv. apply Qmult_le_compat_r.
  - rewrite <- Zle_Qle. apply inj_le, Hcnt.
  - apply Qinv_le_0_compat. rewrite <- (Zle_Qle 0). lia.
Qed.

End OrderStats.

(** ** Frame similarity: what the result depends on *)

Module FrameOrder.

Import ImageHash Fingerprint HashFacts NpFacts OrderStats.

(** The bits of a hash string, its distance to another one, and the
    distance from [x] to the nearest hash of [b]. *)
Definition bits (hx : string) : list bool := default [] (hex_bits hx).

Definition dist (x y : string) : Z :=
  Z.of_nat (count_diff (bits x) (bits y)).

Definition nn (b : list string) (x : string) : Z :=
  match b with
  | [] => 0%Z
  | y :: b' => fold_left Z.min (dist x <$> b') (dist x y)
  end.

Lemma mapM_cons_result {A B : Type} (f : A -> result B) (x : A) (l : list A) :
  mapM f (x :: l) = (y ← f x; k ← mapM f l; mret (y :: k)).
Proof. reflexivity. Qed.

Lemma hex_to_hash_bits (hx : string) :
  valid_hash hx -> _hex_to_hash hx = Ok (bits hx) /\ bits64 (bits hx).
Proof.
  intros Hv. destruct (hex_to_hash_valid hx Hv) as (bs & Hbs & Hb).
  assert (E : bits hx = bs).
  { unfold bits. unfold _hex_to_hash, hex_to_hash in Hbs.
    destruct hx as [|c hx]; [discriminate Hbs|].
    destruct (hex_bits (String c hx)); [simpl; congruence | discriminate]. }
  rewrite E. split; assumption.
Qed.

Lemma mapM_hex_bits (l : list string) :
  Forall valid_hash l -> mapM _hex_to_hash l = Ok (bits <$> l).
Proof.
  induction 1 as [|hx l Hhx _ IH]; [reflexivity|].
  destruct (hex_to_hash_bits hx Hhx) as [E _].
  rewrite fmap_cons, mapM_cons_result, E. cbn [mbind result_bind].
  rewrite IH. reflexivity.
Qed.

Lemma hamming_dist (x y : string) :
  valid_hash x -> valid_hash y -> _hamming (bits x) (bits y) = Ok (dist x y).
Proof.
  intros Hx Hy.
  destruct (hex_to_hash_bits x Hx) as [_ Hbx].
  destruct (hex_to_hash_bits y Hy) as [_ Hby].
  unfold _hamming, sub, dist. unfold bits64 in *. rewrite Hbx, Hby.
  reflexivity.
Qed.

Lemma mapM_hamming_dist (b : list string) (x : string) :
  Forall valid_hash b -> valid_hash x ->
  mapM (_hamming (bits x)) (bits <$> b) = Ok (dist x <$> b).
Proof.
  intros Hb Hx. induction Hb as [|y b Hy _ IH]; [reflexivity|].
  rewrite !fmap_cons, mapM_cons_result, (hamming_dist x y Hx Hy).
  cbn [mbind result_bind]. rewrite IH. reflexivity.
Qed.

Lemma nearest_nn (b : list string) (x : string) :
  b <> [] -> Forall valid_hash b -> valid_hash x ->
  nearest (bits <$> b) (bits x) = Ok (nn b x).
Proof.
  intros Hne Hb Hx. unfold nearest.
  rewrite (mapM_hamming_dist b x Hb Hx). cbn [mbind result_bind].
  destruct b as [|y b]; [congruence|]. reflexivity.
Qed.

Lemma mapM_nearest_nn (b a : list string) :
  b <> [] -> Forall valid_hash b -> Forall valid_hash a ->
  mapM (nearest (bits <$> b)) (bits <$> a) = Ok (nn b <$> a).
Proof.
  intros Hne Hb Ha. induction Ha as [|x a Hx _ IH]; [reflexivity|].
  rewrite !fmap_cons, mapM_cons_result, (nearest_nn b x Hne Hb Hx).
  cbn [mbind result_bind]. rewrite IH. reflexivity.
Qed.

(** The call on valid hashes, in closed form. *)
Lemma frame_similarity_closed (cfg : CFG) (a b : list string)
    (threshold : option Z) :
  a <> [] -> b <> [] -> Forall valid_hash a -> Forall valid_hash b ->
  frame_similarity_score cfg a b threshold
  = Ok (stats_of_dists (nn b <$> a) (default (hash_threshold cfg) threshold)).
Proof.
  intros Ha Hb Hva Hvb. unfold frame_similarity_score.
  destruct a as [|a0 a']; [congruence|].
  destruct b as [|b0 b']; [congruence|].
  cbn [truthy_list negb orb].
  rewrite (mapM_hex_bits _ Hva). cbn [mbind result_bind].
  rewrite (mapM_hex_bits _ Hvb). cbn [mbind result_bind].
  rewrite (mapM_nearest_nn (b0 :: b') (a0 :: a')) by (assumption || discriminate).
  reflexivity.
Qed.

Lemma nn_spec (b : list string) (x : string) :
  b <> [] ->
  (exists y, In y b /\ nn b x = dist x y) /\
  (forall y, In y b -> (nn b x <= dist x y)%Z).
Proof.
  destruct b as [|y0 b]; [congruence|]. intros _. simpl nn.
  destruct (fold_left_min_spec (dist x <$> b) (dist x y0)) as (Hm & Hle & Hall).
  split.
  - destruct Hm as [Hm|Hm].
    + exists y0. split; [left; reflexivity | exact Hm].
    + apply in_map_iff in Hm. destruct Hm as (y & Hy & Hin).
      exists y. split; [right; exact Hin | symmetry; exact Hy].
  - intros y [<-|Hin]; [exact Hle|].
    rewrite List.Forall_forall in Hall. apply Hall.
    apply in_map_iff. exists y. split; [reflexivity | exact Hin].
Qed.

(** More candidate hashes can only bring the nearest one closer. *)
Lemma nn_subset (b b' : list string) (x : string) :
  b <> [] -> (forall y, In y b -> In y b') -> (nn b' x <= nn b x)%Z.
Proof.
  intros Hne Hsub.
  destruct (nn_spec b x Hne) as [(y & Hy & ->) _].
  assert (Hne' : b' <> []).
  { intros ->. apply (Hsub y Hy). }
  destruct (nn_spec b' x Hne') as [_ Hmin].
  apply Hmin, Hsub, Hy.
Qed.

Lemma max0_mono (c c' : Q) : c <= c' -> Py.max 0.0 c <= Py.max 0.0 c'.
Proof.
  intros H.
  destruct (max_spec 0.0 c) as [[? ->]|[? ->]];
    destruct (max_spec 0.0 c') as [[? ->]|[? ->]]; lra.
Qed.

Lemma div64_mono (m m' : Q) : m' <= m -> 1.0 - m / 64.0 <= 1.0 - m' / 64.0.
Proof.
  intros H. assert (m' / 64.0 <= m / 64.0); [|lra].
  unfold Qdiv. apply Qmult_le_compat_r; [exact H | discriminate].
Qed.

(** The statistics of two distance arrays of one length, the second
    having at every level at least as many elements at or below it. *)
Lemma stats_mono (d d' : list Z) (t : Z) :
  length d = length d' ->
  (forall v, (count_le v (inject_Z <$> d) <= count_le v (inject_Z <$> d'))%nat) ->
  let st := stats_of_dists d t in
  let st' := stats_of_dists d' t in
  median st' <= median st /\ p25 st' <= p25 st /\ p75 st' <= p75 st /\
  match_frac st <= match_frac st' /\ score st <= score st'.
Proof.
  intros Hlen Hcnt. simpl.
  assert (Hl : length (inject_Z <$> d) = length (inject_Z <$> d'))
    by (rewrite !length_fmap; exact Hlen).
  pose proof (median_mono _ _ Hl Hcnt) as Hmed.
  pose proof (mean_le_mono _ _ t Hl Hcnt) as Hmf.
  repeat split; try assumption; try (apply percentile_mono; assumption).
  pose proof (max0_mono _ _ (div64_mono _ _ Hmed)). lra.
Qed.

Lemma dists_pointwise (d d' : list Z) :
  Forall2 Z.le d' d -> Forall2 Qle (inject_Z <$> d') (inject_Z <$> d).
Proof.
  induction 1 as [|x' x d' d Hx _ IH]; constructor; [|exact IH].
  rewrite <- Zle_Qle. exact Hx.
Qed.

Lemma mean_pointwise (l l' : list Q) :
  Forall2 Qle l' l -> Np.mean l' <= Np.mean l.
Proof.
  intros H. unfold Np.mean, Np.size.
  rewrite (Forall2_length _ _ _ H).
  unfold Qdiv. apply Qmult_le_compat_r; [apply sum_pointwise, H|].
  apply Qinv_le_0_compat. rewrite <- (Zle_Qle 0). lia.
Qed.

Lemma valid_subset (b b' : list string) :
  Forall valid_hash b' -> (forall y, In y b -> In y b') -> Forall valid_hash b.
Proof.
  intros Hv Hsub. rewrite List.Forall_forall in *. auto.
Qed.

(** Enlarging the candidate's hash list never worsens the result: the
    distance statistics can only go down, match fraction and frame score
    only up. *)
Theorem frame_similarity_more_candidates (cfg : CFG) (a b b' : list string)
    (threshold : option Z) :
  a <> [] -> b <> [] ->
  Forall valid_hash a -> Forall valid_hash b' ->
  (forall y, In y b -> In y b') ->
  exists st st',
    frame_similarity_score cfg a b threshold = Ok st /\
    frame_similarity_score cfg a b' threshold = Ok st' /\
    median st' <= median st /\ mean st' <= mean st /\
    p25 st' <= p25 st /\ p75 st' <= p75 st /\
    match_frac st <= match_frac st' /\ score st <= score st'.
Proof.
  intros Ha Hb Hva Hvb' Hsub.
  pose proof (valid_subset b b' Hvb' Hsub) as Hvb.
  assert (Hb' : b' <> []).
  { destruct b as [|y b]; [congruence|]. intros ->. apply (Hsub y). left. reflexivity. }
  do 2 eexists.
  split; [apply frame_similarity_closed; assumption|].
  split; [apply frame_similarity_closed; assumption|].
  set (t := default (hash_threshold cfg) threshold).
  assert (Hpw : Forall2 Z.le (nn b' <$> a) (nn b <$> a)).
  { clear Ha Hva. induction a as [|x a IH]; constructor; [|exact IH].
    apply nn_subset; assumption. }
  pose proof (dists_pointwise _ _ Hpw) as HpwQ.
  destruct (stats_mono (nn b <$> a) (nn b' <$> a) t) as (H1 & H2 & H3 & H4 & H5).
  { rewrite !length_fmap. reflexivity. }
  { intros v. apply count_le_pointwise, HpwQ. }
  repeat split; try assumption.
  apply (mean_pointwise _ _ HpwQ).
Qed.

Lemma frame_similarity_more_candidates_witness :
  (FrameSpec.sample_a <> [] /\ FrameSpec.sample_b <> [] /\
   Forall valid_hash FrameSpec.sample_a /\
   Forall valid_hash (FrameSpec.sample_b ++ FrameSpec.sample_a) /\
   (forall y, In y FrameSpec.sample_b ->
              In y (FrameSpec.sample_b ++ FrameSpec.sample_a))) /\
  exists st st',
    frame_similarity_score FrameSpec.default_cfg
      FrameSpec.sample_a FrameSpec.sample_b None = Ok st /\
    frame_similarity_score FrameSpec.default_cfg
      FrameSpec.sample_a (FrameSpec.sample_b ++ FrameSpec.sample_a) None
      = Ok st' /\
    median st' <= median st /\ mean st' <= mean st /\
    p25 st' <= p25 st /\ p75 st' <= p75 st /\
    match_frac st <= match_frac st' /\ score st <= score st'.
Proof.
  assert (H1 : FrameSpec.sample_a <> []) by discriminate.
  assert (H2 : FrameSpec.sample_b <> []) by discriminate.
  assert (H3 : Forall valid_hash (FrameSpec.sample_b ++ FrameSpec.sample_a)).
  { apply Forall_app. split;
      [apply FrameSpec.sample_b_valid | apply FrameSpec.sample_a_valid]. }
  assert (H4 : forall y, In y FrameSpec.sample_b ->
                         In y (FrameSpec.sample_b ++ FrameSpec.sample_a)).
  { intros y Hy. apply in_or_app. left. exact Hy. }
  split; [repeat split; [exact H1 | exact H2 | apply FrameSpec.sample_a_valid
                        | exact H3 | exact H4]|].
  exact (frame_similarity_more_candidates FrameSpec.default_cfg
           FrameSpec.sample_a FrameSpec.sample_b
           (FrameSpec.sample_b ++ FrameSpec.sample_a) None
           H1 H2 FrameSpec.sample_a_valid H3 H4).
Defined.

Lemma nn_same_elements (b b' : list string) (x : string) :
  (forall y, In y b <-> In y b') -> nn b x = nn b' x.
Proof.
  intros Hsame. destruct b as [|y0 b].
  - destruct b' as [|y0' b']; [reflexivity|].
    exfalso. apply (proj2 (Hsame y0')). left. reflexivity.
  - assert (Hne' : b' <> []).
    { intros ->. apply (proj1 (Hsame y0)). left. reflexivity. }
    apply Z.le_antisymm; apply nn_subset;
      try discriminate; try exact Hne'; intros y Hy; apply Hsame, Hy.
Qed.

Lemma stats_perm (d d' : list Z) (t : Z) :
  d ≡ₚ d' ->
  let st := stats_of_dists d t in
  let st' := stats_of_dists d' t in
  median st == median st' /\ mean st == mean st' /\
  p25 st == p25 st' /\ p75 st == p75 st' /\
  match_frac st == match_frac st' /\ score st == score st'.
Proof.
  intros Hp.
  assert (HpQ : inject_Z <$> d ≡ₚ inject_Z <$> d') by (apply fmap_Permutation, Hp).
  assert (Hlen : length d = length d') by (apply Permutation_length, Hp).
  destruct (stats_mono d d' t Hlen) as (A1 & A2 & A3 & A4 & A5).
  { intros v. rewrite (count_le_perm _ _ v HpQ). reflexivity. }
  destruct (stats_mono d' d t (eq_sym Hlen)) as (B1 & B2 & B3 & B4 & B5).
  { intros v. rewrite (count_le_perm _ _ v HpQ). reflexivity. }
  simpl in *.
  repeat split; try (apply Qle_antisym; assumption).
  unfold Np.mean, Np.size. rewrite (Permutation_length HpQ).
  rewrite (sum_perm _ _ HpQ). reflexivity.
Qed.

(** The order of the hashes on either side, and repetitions among the
    candidate's hashes, do not matter: the six statistics are the same. *)
Theorem frame_similarity_order_insensitive (cfg : CFG)
    (a a' b b' : list string) (threshold : option Z) :
  Forall valid_hash a -> Forall valid_hash b ->
  a ≡ₚ a' -> (forall y, In y b <-> In y b') ->
  exists st st',
    frame_similarity_score cfg a b threshold = Ok st /\
    frame_similarity_score cfg a' b' threshold = Ok st' /\
    median st == median st' /\ mean st == mean st' /\
    p25 st == p25 st' /\ p75 st == p75 st' /\
    match_frac st == match_frac st' /\ score st == score st'.
Proof.
  intros Hva Hvb Hperm Hsame.
  assert (Hva' : Forall valid_hash a') by (rewrite <- Hperm; exact Hva).
  assert (Hvb' : Forall valid_hash b').
  { apply (valid_subset b' b Hvb). intros y Hy. apply Hsame, Hy. }
  destruct a as [|a0 a1].
  { apply Permutation_nil_l in Hperm. subst a'.
    exists FrameSpec.worst_stats, FrameSpec.worst_stats.
    split; [apply FrameSpec.frame_similarity_guard; left; reflexivity|].
    split; [apply FrameSpec.frame_similarity_guard; left; reflexivity|].
    repeat split; reflexivity. }
  destruct b as [|b0 b1].
  { destruct b' as [|y b'];
      [|exfalso; apply (proj2 (Hsame y)); left; reflexivity].
    exists FrameSpec.worst_stats, FrameSpec.worst_stats.
    split; [apply FrameSpec.frame_similarity_guard; right; reflexivity|].
    split; [apply FrameSpec.frame_similarity_guard; right; reflexivity|].
    repeat split; reflexivity. }
  assert (Ha' : a' <> []).
  { intros ->. apply Permutation_nil_r in Hperm. discriminate. }
  assert (Hb' : b' <> []).
  { intros ->. apply (proj1 (Hsame b0)). left. reflexivity. }
  do 2 eexists.
  split; [apply frame_similarity_closed; assumption || discriminate|].
  split; [apply frame_similarity_closed; assumption|].
  apply stats_perm.
  rewrite (list_fmap_ext (nn b') (nn (b0 :: b1)) a').
  - apply fmap_Permutation, Hperm.
  - intros i x _. symmetry. apply nn_same_elements, Hsame.
Qed.

Lemma frame_similarity_order_insensitive_witness :
  (Forall valid_hash FrameSpec.sample_a /\
   Forall valid_hash FrameSpec.sample_b /\
   FrameSpec.sample_a ≡ₚ reverse FrameSpec.sample_a /\
   (forall y, In y FrameSpec.sample_b <->
              In y (FrameSpec.sample_b ++ FrameSpec.sample_b))) /\
  exists st st',
    frame_similarity_score FrameSpec.default_cfg
      FrameSpec.sample_a FrameSpec.sample_b None = Ok st /\
    frame_similarity_score FrameSpec.default_cfg
      (reverse FrameSpec.sample_a)
      (FrameSpec.sample_b ++ FrameSpec.sample_b) None = Ok st' /\
    median st == median st' /\ mean st == mean st' /\
    p25 st == p25 st' /\ p75 st == p75 st' /\
    match_frac st == match_frac st' /\ score st == score st'.
Proof.
  assert (H1 : FrameSpec.sample_a ≡ₚ reverse FrameSpec.sample_a)
    by (symmetry; apply reverse_Permutation).
  assert (H2 : forall y, In y FrameSpec.sample_b <->
                         In y (FrameSpec.sample_b ++ FrameSpec.sample_b)).
  { intros y. rewrite in_app_iff. tauto. }
  split; [repeat split; [apply FrameSpec.sample_a_valid
                        | apply FrameSpec.sample_b_valid | exact H1
                        | apply H2 | apply H2]|].
  exact (frame_similarity_order_insensitive FrameSpec.default_cfg
           FrameSpec.sample_a (reverse FrameSpec.sample_a)
           FrameSpec.sample_b (FrameSpec.sample_b ++ FrameSpec.sample_b) None
           FrameSpec.sample_a_valid FrameSpec.sample_b_valid H1 H2).
Defined.

End FrameOrder.

(** * The ranking pipeline *)

(** ** More Python helpers: slices, the stable sort, effects *)

Module PyList.

(** Truthiness of a string. *)
Definition truthy_str (s : string) : bool := negb (String.eqb s "").

(** Truthiness of an [Optional[int]]: [None] and [0] are falsy. *)
Definition truthy_opt_int (n : option Z) : bool :=
  match n with
  | None => false
  | Some n => negb (n =? 0)%Z
  end.

(** The slice [l[:n]]: the first [n] elements, or all but the last [-n]
    when [n] is negative. *)
Definition slice_to {A : Type} (n : Z) (l : list A) : list A :=
  if (0 <=? n)%Z then take (Z.to_nat n) l
  else take (length l - Z.to_nat (- n)) l.

(** One step of the stable descending sort: [x], which stood before
    every element of the sorted [s], goes before the first element whose
    key is not greater. *)
Fixpoint insert_desc {A : Type} (key : A -> Q) (x : A) (s : list A) : list A :=
  match s with
  | [] => [x]
  | y :: s' =>
      if Qlt_bool (key x) (key y) then y :: insert_desc key x s'
      else x :: s
  end.

(** [l.sort(key=key, reverse=True)]: sorted by descending key, elements
    of equal key in their original order. *)
Definition sort_desc {A : Type} (key : A -> Q) (l : list A) : list A :=
  fold_right (insert_desc key) [] l.

End PyList.

(** Code with side effects on a world [W] that may raise: the outcome and
    the world after the call. *)
Module Eff.

Definition M (W A : Type) : Type := W -> result A * W.

Definition ret {W A : Type} (a : A) : M W A := fun w => (Ok a, w).

Definition bind {W A B : Type} (m : M W A) (k : A -> M W B) : M W B :=
  fun w =>
    match m w with
    | (Ok a, w') => k a w'
    | (Raise e, w') => (Raise e, w')
    end.

(** A pure call that may raise. *)
Definition lift {W A : Type} (r : result A) : M W A := fun w => (r, w).

(** [try: m / except FFMpegError: h]. *)
Definition except_ffmpeg {W A : Type} (m : M W A) (h : M W A) : M W A :=
  fun w =>
    match m w with
    | (Raise FFMpegError, w') => h w'
    | r => r
    end.

(** [try: m / except Exception: h]. *)
Definition except_any {W A : Type} (m : M W A) (h : M W A) : M W A :=
  fun w =>
    match m w with
    | (Raise _, w') => h w'
    | r => r
    end.

End Eff.

Notation "x <~ m ;~ k" := (Eff.bind m (fun x => k))
  (at level 20, m at level 100, k at level 200).

(** ** app/services/yt_search.py: candidates *)

Module YtSearch.

(** [@dataclass YTCandidate]. *)
Record YTCandidate : Type := mkYTCandidate {
  video_id : string;
  url : string;
  title : string;
  channel : option string;
  duration : option Q;
  thumbnails : list json;
  views : option Z;
  published_text : option string;
  score_hint : Q
}.

(** The loop of [_dedupe]: [seen] holds the ids met so far. *)
Fixpoint dedupe_from (seen : gset string) (cands : list YTCandidate)
  : list YTCandidate :=
  match cands with
  | [] => []
  | c :: cands' =>
      if decide (video_id c ∈ seen) then dedupe_from seen cands'
      else c :: dedupe_from ({[ video_id c ]} ∪ seen) cands'
  end.

(** [_dedupe(cands)]. *)
Definition _dedupe (cands : list YTCandidate) : list YTCandidate :=
  dedupe_from ∅ cands.

End YtSearch.

(** ** app/services/ig_fetch.py: the reference reel *)

Module IgFetch.

(** [@dataclass ReelInfo]; paths are strings. *)
Record ReelInfo : Type := mkReelInfo {
  url : string;
  local_path : string;
  title : string;
  uploader : option string;
  duration : Q;
  frames_dir : string;
  audio_wav : option string;
  meta : json
}.

End IgFetch.

(** ** app/services/matcher.py: scoring and ranking *)

Module Ranking.

Import Fingerprint Matcher PyList.

Section Collaborators.

(** The world [W] the collaborators act on (files, network), and what
    their calls do to it and return, typed as their annotations say:
    [download_video(url, dl_dir, ext="mp4")],
    [frame_hashes_from_dir(dir, limit=40)],
    [quick_video_fp(path, stride_sec=cfg.frame_stride_sec, limit=40)] and
    [audio_vec_from_wav(path)].  Further [np.linalg.norm],
    [rapidfuzz.fuzz.partial_ratio], [str.lower], and the text that
    [_reason_line] formats from the numbers. *)
Context {W : Type}.
Variable cfg : CFG.
Variable download_video : string -> Eff.M W string.
Variable frame_hashes_from_dir : string -> Eff.M W (list string).
Variable quick_video_fp : string -> Eff.M W (list string * option (list Q)).
Variable audio_vec_from_wav : string -> Eff.M W (option (list Q)).
Variable norm : list Q -> Q.
Variable partial_ratio : string -> string -> Q.
Variable lower : string -> string.
Variable _reason_line : CombinedScore -> Q -> Q -> string.

(** [_title_boost(ig_title, yt_title)]. *)
Definition _title_boost (ig_title yt_title : string) : Q :=
  if negb (truthy_str ig_title) || negb (truthy_str yt_title) then 0.0
  else
    let r := partial_ratio (lower ig_title) (lower yt_title) / 100.0 in
    0.15 * r.

(** [score_candidate(reel, cand)]. *)
Definition score_candidate (reel : IgFetch.ReelInfo)
    (cand : YtSearch.YTCandidate) : Eff.M W (option CandidateScore) :=
  if negb (_duration_ok (IgFetch.duration reel) (YtSearch.duration cand))
  then Eff.ret None
  else
    got <~ Eff.except_ffmpeg
             (Eff.bind (download_video (YtSearch.url cand))
                       (fun ypath => Eff.ret (Some ypath)))
             (Eff.ret None) ;~
    match got with
    | None => Eff.ret None
    | Some ypath =>
        ig_hashes <~ frame_hashes_from_dir (IgFetch.frames_dir reel) ;~
        yt <~ quick_video_fp ypath ;~
        let yt_hashes := fst yt in
        let yt_avec := snd yt in
        fstats <~ Eff.lift (frame_similarity_score cfg ig_hashes yt_hashes
                              (Some (hash_threshold cfg))) ;~
        ig_avec <~ match IgFetch.audio_wav reel with
                   | Some wav => audio_vec_from_wav wav
                   | None => Eff.ret None
                   end ;~
        a_sim <~ (if truthy_opt_list ig_avec && truthy_opt_list yt_avec
                  then Eff.lift (audio_similarity_score norm ig_avec yt_avec)
                  else Eff.ret 0.0) ;~
        let fused := fused (fuse_scores fstats a_sim) in
        let tboost := _title_boost (IgFetch.title reel) (YtSearch.title cand) in
        let fused2 := Py.min 1.0 (fused + tboost) in
        Eff.ret (Some (mkCandidateScore
                         (YtSearch.video_id cand)
                         (YtSearch.url cand)
                         (YtSearch.title cand)
                         (YtSearch.channel cand)
                         (YtSearch.duration cand)
                         (median fstats)
                         (match_frac fstats)
                         (score fstats)
                         a_sim
                         fused2
                         tboost
                         (_reason_line (fuse_scores fstats a_sim) a_sim tboost)))
    end.

(** The loop of [rank_candidates]: [seen] holds the ids met so far, [out]
    the scores collected so far. *)
Fixpoint rank_loop (reel : IgFetch.ReelInfo) (cands : list YtSearch.YTCandidate)
    (seen : gset string) (out : list CandidateScore)
  : Eff.M W (list CandidateScore) :=
  match cands with
  | [] => Eff.ret out
  | c :: cands' =>
      if decide (YtSearch.video_id c ∈ seen) then rank_loop reel cands' seen out
      else
        sc <~ score_candidate reel c ;~
        rank_loop reel cands' ({[ YtSearch.video_id c ]} ∪ seen)
          (match sc with
           | Some s => out ++ [s]
           | None => out
           end)
  end.

(** [rank_candidates(reel, candidates, max_eval)]. *)
Definition rank_candidates (reel : IgFetch.ReelInfo)
    (candidates : list YtSearch.YTCandidate) (max_eval : Z)
  : Eff.M W (list CandidateScore) :=
  out <~ rank_loop reel (slice_to max_eval candidates) ∅ [] ;~
  Eff.ret (sort_desc fused_score out).

End Collaborators.

End Ranking.

(** ** Facts about slices, the stable sort and effects *)

Module PyListFacts.

Import PyList.

Lemma slice_to_take {A : Type} (n : Z) (l : list A) :
  exists k, slice_to n l = take k l.
Proof.
  unfold slice_to. destruct (0 <=? n)%Z; eexists; reflexivity.
Qed.

Lemma slice_to_In {A : Type} (n : Z) (l : list A) (x : A) :
  In x (slice_to n l) -> In x l.
Proof.
  destruct (slice_to_take n l) as [k ->]. intros H.
  rewrite <- (take_drop k l). apply in_or_app. left. exact H.
Qed.

Lemma slice_to_length {A : Type} (n : Z) (l : list A) :
  (0 <= n)%Z -> (length (slice_to n l) <= Z.to_nat n)%nat.
Proof.
  intros Hn. unfold slice_to.
  rewrite (proj2 (Z.leb_le 0 n) Hn). rewrite length_take. lia.
Qed.

(** Descending order of the keys. *)
Definition desc {A : Type} (key : A -> Q) (x y : A) : Prop := key y <= key x.

Lemma insert_desc_perm {A : Type} (key : A -> Q) (x : A) (s : list A) :
  insert_desc key x s ≡ₚ x :: s.
Proof.
  induction s as [|y s IH]; simpl; [reflexivity|].
  destruct (Qlt_bool (key x) (key y)); [|reflexivity].
  rewrite IH. apply Permutation_swap.
Qed.

Lemma sort_desc_perm {A : Type} (key : A -> Q) (l : list A) :
  sort_desc key l ≡ₚ l.
Proof.
  induction l as [|x l IH]; simpl; [reflexivity|].
  rewrite insert_desc_perm, IH. reflexivity.
Qed.

Lemma insert_desc_sorted {A : Type} (key : A -> Q) (x : A) (s : list A) :
  StronglySorted (desc key) s -> StronglySorted (desc key) (insert_desc key x s).
Proof.
  induction 1 as [|y s Hs IH Hall]; simpl.
  - constructor; constructor.
  - destruct (Qlt_bool (key x) (key y)) eqn:E; bool_to_order.
    + constructor; [exact IH|].
      rewrite (insert_desc_perm key x s). constructor; [|exact Hall].
      unfold desc. lra.
    + constructor; [constructor; assumption|].
      constructor; [exact E|].
      eapply Forall_impl; [exact Hall|]. unfold desc. intros z Hz. lra.
Qed.

Lemma sort_desc_sorted {A : Type} (key : A -> Q) (l : list A) :
  StronglySorted (desc key) (sort_desc key l).
Proof.
  induction l as [|x l IH]; simpl; [constructor|].
  apply insert_desc_sorted, IH.
Qed.

End PyListFacts.

Module EffFacts.

Lemma bind_inv {W A B : Type} (m : Eff.M W A) (k : A -> Eff.M W B)
    (w w' : W) (b : B) :
  Eff.bind m k w = (Ok b, w') ->
  exists a w1, m w = (Ok a, w1) /\ k a w1 = (Ok b, w').
Proof.
  unfold Eff.bind. destruct (m w) as [[a|e] w1]; [|discriminate].
  intros H. exists a, w1. split; [reflexivity | exact H].
Qed.

Lemma ret_inv {W A : Type} (a b : A) (w w' : W) :
  Eff.ret a w = (Ok b, w') -> b = a /\ w' = w.
Proof. unfold Eff.ret. intros [= -> ->]. split; reflexivity. Qed.

Lemma lift_inv {W A : Type} (r : result A) (b : A) (w w' : W) :
  Eff.lift r w = (Ok b, w') -> r = Ok b /\ w' = w.
Proof. unfold Eff.lift. intros [= -> ->]. split; reflexivity. Qed.

Lemma bind_ok {W A B : Type} (m : Eff.M W A) (k : A -> Eff.M W B)
    (w w1 : W) (a : A) :
  m w = (Ok a, w1) -> Eff.bind m k w = k a w1.
Proof. intros H. unfold Eff.bind. rewrite H. reflexivity. Qed.

End EffFacts.

(** ** Scoring one candidate ([score_candidate]) *)

Module ScoringSpec.

Import Fingerprint Matcher PyList PyListFacts EffFacts Ranking NpFacts.

(** The fused score recomputed from the breakdown a record carries. *)
Definition recombined (s : CandidateScore) : Q :=
  Py.min 1.0
    ((if Qlt_bool 0 (audio_score s)
      then 0.7 * frame_score s + 0.3 * audio_score s
      else frame_score s)
     + title_ratio s).

(** The frame score recomputed from match fraction and median. *)
Definition reblended (s : CandidateScore) : Q :=
  0.6 * frame_match_frac s
  + 0.4 * Py.max 0.0 (1.0 - frame_median s / 64.0).

(** Whatever the hash lists, returned statistics carry the blend of
    their own match fraction and median as score. *)
Lemma frame_similarity_blend (cfg : CFG) (a b : list string)
    (threshold : option Z) (st : FrameMatchStats) :
  frame_similarity_score cfg a b threshold = Ok st ->
  score st == 0.6 * match_frac st + 0.4 * Py.max 0.0 (1.0 - median st / 64.0).
Proof.
  unfold frame_similarity_score.
  destruct (negb (truthy_list a) || negb (truthy_list b)).
  - intros [= <-]. reflexivity.
  - destruct (mapM _hex_to_hash a) as [A|e]; [|discriminate].
    cbn [mbind result_bind].
    destruct (mapM _hex_to_hash b) as [B|e]; [|discriminate].
    cbn [mbind result_bind].
    destruct (mapM (nearest B) A) as [dists|e]; [|discriminate].
    cbn [mbind result_bind].
    intros [= <-]. reflexivity.
Qed.

Section Collaborators.

Context {W : Type}.
Variable cfg : CFG.
Variable download_video : string -> Eff.M W string.
Variable frame_hashes_from_dir : string -> Eff.M W (list string).
Variable quick_video_fp : string -> Eff.M W (list string * option (list Q)).
Variable audio_vec_from_wav : string -> Eff.M W (option (list Q)).
Variable norm : list Q -> Q.
Variable partial_ratio : string -> string -> Q.
Variable lower : string -> string.
Variable _reason_line : CombinedScore -> Q -> Q -> string.

#[local] Abbreviation score_c :=
  (score_candidate cfg download_video frame_hashes_from_dir quick_video_fp
     audio_vec_from_wav norm partial_ratio lower _reason_line).

(** What a run of [score_candidate] that returned a record went through. *)
Lemma score_candidate_inv (reel : IgFetch.ReelInfo)
    (cand : YtSearch.YTCandidate) (w w' : W) (s : CandidateScore) :
  score_c reel cand w = (Ok (Some s), w') ->
  _duration_ok (IgFetch.duration reel) (YtSearch.duration cand) = true /\
  exists (ig_hashes yt_hashes : list string) (yt_avec : option (list Q))
         (ypath : string) (fstats : FrameMatchStats) (a_sim : Q) (w1 w2 w3 : W),
    frame_hashes_from_dir (IgFetch.frames_dir reel) w1 = (Ok ig_hashes, w2) /\
    quick_video_fp ypath w2 = (Ok (yt_hashes, yt_avec), w3) /\
    frame_similarity_score cfg ig_hashes yt_hashes (Some (hash_threshold cfg))
      = Ok fstats /\
    (a_sim = 0.0 \/
     exists va vb, audio_similarity_score norm va vb = Ok a_sim) /\
    s = mkCandidateScore
          (YtSearch.video_id cand) (YtSearch.url cand) (YtSearch.title cand)
          (YtSearch.channel cand) (YtSearch.duration cand)
          (median fstats) (match_frac fstats) (score fstats) a_sim
          (Py.min 1.0
             (fused (fuse_scores fstats a_sim)
              + _title_boost partial_ratio lower
                  (IgFetch.title reel) (YtSearch.title cand)))
          (_title_boost partial_ratio lower
             (IgFetch.title reel) (YtSearch.title cand))
          (_reason_line (fuse_scores fstats a_sim) a_sim
             (_title_boost partial_ratio lower
                (IgFetch.title reel) (YtSearch.title cand))).
Proof.
  unfold score_candidate.
  destruct (_duration_ok _ _) eqn:Hgate; simpl; [|intros [= ]].
  intros H. split; [reflexivity|].
  apply bind_inv in H. destruct H as (got & w1 & Hdl & H).
  destruct got as [ypath|]; [|apply ret_inv in H; destruct H; discriminate].
  apply bind_inv in H. destruct H as (ig_hashes & w2 & Hig & H).
  apply bind_inv in H. destruct H as ([yt_hashes yt_avec] & w3 & Hyt & H).
  apply bind_inv in H. destruct H as (fstats & w4 & Hfs & H).
  apply lift_inv in Hfs. destruct Hfs as [Hfs ->].
  apply bind_inv in H. destruct H as (ig_avec & w5 & Hia & H).
  apply bind_inv in H. destruct H as (a_sim & w6 & Has & H).
  apply ret_inv in H. destruct H as [Hs ->].
  exists ig_hashes, yt_hashes, yt_avec, ypath, fstats, a_sim, w1, w2, w3.
  split; [exact Hig|]. split; [exact Hyt|]. split; [exact Hfs|].
  split; [|injection Hs as ->; reflexivity].
  simpl in Has.
  destruct (truthy_opt_list ig_avec && truthy_opt_list yt_avec).
  - apply lift_inv in Has. destruct Has as [Has _].
    right. exists ig_avec, yt_avec. exact Has.
  - apply ret_inv in Has. destruct Has as [-> _]. left. reflexivity.
Qed.

Lemma min1_le (x : Q) : Py.min 1.0 x <= 1.
Proof. destruct (min_spec 1.0 x) as [[? ->]|[? ->]]; lra. Qed.

Lemma min1_range (x : Q) : 0 <= x -> 0 <= Py.min 1.0 x <= 1.
Proof. intros Hx. destruct (min_spec 1.0 x) as [[? ->]|[? ->]]; lra. Qed.

Lemma audio_sim_range (a_sim : Q) :
  (a_sim = 0.0 \/ exists va vb, audio_similarity_score norm va vb = Ok a_sim) ->
  0 <= a_sim <= 1.
Proof.
  intros [->|(va & vb & H)]; [lra|].
  apply (AudioSpec.audio_similarity_range norm va vb a_sim H).
Qed.

(** A record that [score_candidate] returns describes its candidate,
    which passed the duration gate, and its numbers fit together: the
    frame score is the blend of match fraction and median, the audio score
    lies in [0, 1], and the fused score is the fusion of frame and audio
    score plus the title bonus, capped at 1. *)
Theorem score_candidate_breakdown (reel : IgFetch.ReelInfo)
    (cand : YtSearch.YTCandidate) (w w' : W) (s : CandidateScore) :
  score_c reel cand w = (Ok (Some s), w') ->
  (video_id s = YtSearch.video_id cand /\ url s = YtSearch.url cand /\
   title s = YtSearch.title cand /\ channel s = YtSearch.channel cand /\
   yt_duration s = YtSearch.duration cand) /\
  _duration_ok (IgFetch.duration reel) (yt_duration s) = true /\
  frame_score s == reblended s /\
  0 <= audio_score s <= 1 /\
  fused_score s = recombined s /\
  fused_score s <= 1.
Proof.
  intros H. apply score_candidate_inv in H.
  destruct H as (Hgate & igh & yth & yta & yp & fst & a & w1 & w2 & w3
                 & _ & _ & Hfs & Ha & ->).
  simpl. split; [repeat split|]. split; [exact Hgate|].
  split; [apply (frame_similarity_blend _ _ _ _ _ Hfs)|].
  split; [apply audio_sim_range, Ha|].
  split; [reflexivity | apply min1_le].
Qed.

Lemma frame_similarity_ok_ranges (a b : list string) (threshold : option Z)
    (st : FrameMatchStats) :
  Forall HashFacts.valid_hash a -> Forall HashFacts.valid_hash b ->
  frame_similarity_score cfg a b threshold = Ok st ->
  unit_range (match_frac st) /\ unit_range (score st) /\
  within64 (median st) /\ within64 (mean st) /\
  within64 (p25 st) /\ within64 (p75 st).
Proof.
  intros Hva Hvb Hrun.
  destruct a as [|a0 a'].
  { rewrite FrameSpec.frame_similarity_guard in Hrun by (left; reflexivity).
    injection Hrun as <-. apply FrameSpec.worst_stats_range. }
  destruct b as [|b0 b'].
  { rewrite FrameSpec.frame_similarity_guard in Hrun by (right; reflexivity).
    injection Hrun as <-. apply FrameSpec.worst_stats_range. }
  destruct (FrameSpec.frame_similarity_dists cfg (a0 :: a') (b0 :: b') threshold)
    as (dists & Hrun' & Hdne & Hr & _); try assumption; try discriminate.
  rewrite Hrun' in Hrun. injection Hrun as <-.
  apply FrameSpec.stats_of_dists_range; assumption.
Qed.

Lemma title_boost_range (x y : string) :
  (forall u v, 0 <= partial_ratio u v <= 100) ->
  0 <= _title_boost partial_ratio lower x y <= 0.15.
Proof.
  intros Hr. unfold _title_boost.
  destruct (negb (truthy_str x) || negb (truthy_str y)); [lra|].
  specialize (Hr (lower x) (lower y)).
  assert (E : partial_ratio (lower x) (lower y) / 100.0
              == partial_ratio (lower x) (lower y) * (1 # 100)).
  { unfold Qdiv. apply Qmult_comp; reflexivity. }
  rewrite E. lra.
Qed.

(** When the collaborators hand over valid 64-bit hashes and the title
    ratio lies in [0, 100], every number of a returned record is in range:
    match fraction, frame, audio and fused score in [0, 1], median in
    [0, 64], title bonus in [0, 0.15]. *)
Theorem score_candidate_ranges (reel : IgFetch.ReelInfo)
    (cand : YtSearch.YTCandidate) (w w' : W) (s : CandidateScore) :
  (forall d w0 hs w1,
     frame_hashes_from_dir d w0 = (Ok hs, w1) ->
     Forall HashFacts.valid_hash hs) ->
  (forall p w0 hs av w1,
     quick_video_fp p w0 = (Ok (hs, av), w1) ->
     Forall HashFacts.valid_hash hs) ->
  (forall u v, 0 <= partial_ratio u v <= 100) ->
  score_c reel cand w = (Ok (Some s), w') ->
  unit_range (frame_match_frac s) /\ unit_range (frame_score s) /\
  within64 (frame_median s) /\ unit_range (audio_score s) /\
  0 <= title_ratio s <= 0.15 /\ unit_range (fused_score s).
Proof.
  intros Hig Hyt Hratio H. apply score_candidate_inv in H.
  destruct H as (_ & igh & yth & yta & yp & fst & a & w1 & w2 & w3
                 & Higr & Hytr & Hfs & Ha & ->).
  simpl.
  destruct (frame_similarity_ok_ranges igh yth _ fst
              (Hig _ _ _ _ Higr) (Hyt _ _ _ _ _ Hytr) Hfs)
    as (Hmf & Hsc & Hmed & _).
  pose proof (audio_sim_range a Ha) as Haud.
  pose proof (title_boost_range (IgFetch.title reel) (YtSearch.title cand) Hratio)
    as Htb.
  repeat split; try apply Hmf; try apply Hsc; try apply Hmed;
    try apply Haud; try apply Htb.
  - apply min1_range. unfold fuse_scores. simpl.
    destruct Hsc, Haud, Htb. destruct (Qlt_bool 0 a); lra.
  - apply min1_le.
Qed.

End Collaborators.

End ScoringSpec.

(** ** Ranking ([rank_candidates]) and selection on its result *)

Module RankingSpec.

Import Fingerprint Matcher PyList PyListFacts EffFacts Ranking NpFacts.

Section Collaborators.

Context {W : Type}.
Variable cfg : CFG.
Variable download_video : string -> Eff.M W string.
Variable frame_hashes_from_dir : string -> Eff.M W (list string).
Variable quick_video_fp : string -> Eff.M W (list string * option (list Q)).
Variable audio_vec_from_wav : string -> Eff.M W (option (list Q)).
Variable norm : list Q -> Q.
Variable partial_ratio : string -> string -> Q.
Variable lower : string -> string.
Variable _reason_line : CombinedScore -> Q -> Q -> string.

#[local] Abbreviation score_c :=
  (score_candidate cfg download_video frame_hashes_from_dir quick_video_fp
     audio_vec_from_wav norm partial_ratio lower _reason_line).

#[local] Abbreviation loop_c :=
  (rank_loop cfg download_video frame_hashes_from_dir quick_video_fp
     audio_vec_from_wav norm partial_ratio lower _reason_line).

#[local] Abbreviation rank_c :=
  (rank_candidates cfg download_video frame_hashes_from_dir quick_video_fp
     audio_vec_from_wav norm partial_ratio lower _reason_line).

(** [s] is the record some run of [score_candidate] returned for [c]. *)
Definition scored_from (reel : IgFetch.ReelInfo) (c : YtSearch.YTCandidate)
    (s : CandidateScore) : Prop :=
  exists w0 w1, score_c reel c w0 = (Ok (Some s), w1).

Lemma scored_from_id (reel : IgFetch.ReelInfo) (c : YtSearch.YTCandidate)
    (s : CandidateScore) :
  scored_from reel c s -> video_id s = YtSearch.video_id c.
Proof.
  intros (w0 & w1 & H).
  apply ScoringSpec.score_candidate_inv in H.
  destruct H as (_ & ? & ? & ? & ? & ? & ? & ? & ? & ? & _ & _ & _ & _ & ->).
  reflexivity.
Qed.

(** The loop appends to [out] the records of candidates of [cands] whose
    ids are new, each id once. *)
Lemma rank_loop_inv (reel : IgFetch.ReelInfo)
    (cands : list YtSearch.YTCandidate) (seen : gset string)
    (out out' : list CandidateScore) (w w' : W) :
  loop_c reel cands seen out w = (Ok out', w') ->
  exists new,
    out' = out ++ new /\
    Forall (fun s => exists c, In c cands /\ scored_from reel c s) new /\
    NoDup (video_id <$> new) /\
    Forall (fun s => video_id s ∉ seen) new /\
    (length new <= length cands)%nat.
Proof.
  revert seen out w. induction cands as [|c cands IH]; intros seen out w H.
  - apply ret_inv in H. destruct H as [-> _].
    exists []. rewrite app_nil_r. repeat split; constructor.
  - simpl in H. destruct (decide (YtSearch.video_id c ∈ seen)) as [Hin|Hnin].
    + destruct (IH _ _ _ H) as (new & -> & Hfrom & Hnd & Hseen & Hlen).
      exists new. repeat split; try assumption; [|simpl; lia].
      eapply Forall_impl; [exact Hfrom|].
      intros s (c' & Hc' & Hs). exists c'. split; [right; exact Hc' | exact Hs].
    + apply bind_inv in H. destruct H as (sc & w1 & Hsc & H).
      destruct (IH _ _ _ H) as (new & -> & Hfrom & Hnd & Hseen & Hlen).
      assert (Hfrom' : Forall (fun s => exists c0, In c0 (c :: cands) /\
                                                  scored_from reel c0 s) new).
      { eapply Forall_impl; [exact Hfrom|].
        intros s (c' & Hc' & Hs). exists c'. split; [right; exact Hc' | exact Hs]. }
      assert (Hseen' : Forall (fun s => video_id s ∉ seen) new).
      { eapply Forall_impl; [exact Hseen|]. intros s Hs. set_solver. }
      destruct sc as [s|].
      * assert (Hsf : scored_from reel c s) by (exists w, w1; exact Hsc).
        pose proof (scored_from_id reel c s Hsf) as Hid.
        exists (s :: new). rewrite <- app_assoc. simpl.
        repeat split.
        -- constructor; [|exact Hfrom'].
           exists c. split; [left; reflexivity | exact Hsf].
        -- constructor; [|exact Hnd].
           intros Hmem. apply list_elem_of_fmap in Hmem.
           destruct Hmem as (s' & Hids & Hs').
           rewrite List.Forall_forall in Hseen.
           apply list_elem_of_In in Hs'. specialize (Hseen s' Hs').
           rewrite <- Hids, Hid in Hseen. set_solver.
        -- constructor; [rewrite Hid; exact Hnin | exact Hseen'].
        -- simpl. lia.
      * exists new. repeat split; try assumption. simpl. lia.
Qed.

(** What [rank_candidates] returns, before any property is read off. *)
Lemma rank_candidates_inv (reel : IgFetch.ReelInfo)
    (candidates : list YtSearch.YTCandidate) (max_eval : Z)
    (out : list CandidateScore) (w w' : W) :
  rank_c reel candidates max_eval w = (Ok out, w') ->
  exists new,
    out = sort_desc fused_score new /\
    Forall (fun s => exists c, In c (slice_to max_eval candidates) /\
                               scored_from reel c s) new /\
    NoDup (video_id <$> new) /\
    (length new <= length (slice_to max_eval candidates))%nat.
Proof.
  unfold rank_candidates. intros H.
  apply bind_inv in H. destruct H as (new0 & w1 & Hloop & H).
  apply ret_inv in H. destruct H as [-> _].
  destruct (rank_loop_inv _ _ _ _ _ _ _ Hloop)
    as (new & -> & Hfrom & Hnd & _ & Hlen).
  exists new. simpl. repeat split; assumption.
Qed.

(** The ranked list is sorted by fused score, highest first; so a match
    that [pick_best] accepts from it has the highest fused score of all
    ranked candidates. *)
Theorem rank_candidates_sorted (reel : IgFetch.ReelInfo)
    (candidates : list YtSearch.YTCandidate) (max_eval : Z)
    (out : list CandidateScore) (w w' : W) :
  rank_c reel candidates max_eval w = (Ok out, w') ->
  StronglySorted (fun x y => fused_score y <= fused_score x) out /\
  (forall best, pick_best out = Some best ->
     In best out /\
     forall e, In e out -> fused_score e <= fused_score best).
Proof.
  intros H. destruct (rank_candidates_inv _ _ _ _ _ _ H) as (new & -> & _).
  pose proof (sort_desc_sorted fused_score new) as Hs.
  split; [exact Hs|].
  intros best Hbest. unfold pick_best in Hbest.
  destruct (sort_desc fused_score new) as [|top rest]; [discriminate|].
  destruct (Qle_bool 0.62 (fused_score top) && Qle_bool 0.55 (frame_match_frac top));
    [|discriminate].
  injection Hbest as <-.
  split; [left; reflexivity|].
  apply StronglySorted_inv in Hs. destruct Hs as [_ Hall].
  intros e [<-|He]; [lra|].
  rewrite List.Forall_forall in Hall. apply (Hall e He).
Qed.

(** No video is ranked twice, and no more candidates are ranked than
    [max_eval] allows or than were given. *)
Theorem rank_candidates_distinct (reel : IgFetch.ReelInfo)
    (candidates : list YtSearch.YTCandidate) (max_eval : Z)
    (out : list CandidateScore) (w w' : W) :
  rank_c reel candidates max_eval w = (Ok out, w') ->
  NoDup (video_id <$> out) /\
  (length out <= length candidates)%nat /\
  ((0 <= max_eval)%Z -> (length out <= Z.to_nat max_eval)%nat).
Proof.
  intros H.
  destruct (rank_candidates_inv _ _ _ _ _ _ H) as (new & -> & _ & Hnd & Hlen).
  pose proof (sort_desc_perm fused_score new) as Hp.
  rewrite (Permutation_length Hp).
  split; [rewrite Hp; exact Hnd|].
  split.
  - destruct (slice_to_take max_eval candidates) as [k E]. rewrite E in Hlen.
    rewrite length_take in Hlen. lia.
  - intros Hn. pose proof (slice_to_length max_eval candidates Hn). lia.
Qed.

(** Every ranked record is the score of one of the first [max_eval]
    candidates: it carries that candidate's id, title and duration, the
    duration passed the gate, and the fused score is the capped fusion of
    the record's own breakdown. *)
Theorem rank_candidates_entries (reel : IgFetch.ReelInfo)
    (candidates : list YtSearch.YTCandidate) (max_eval : Z)
    (out : list CandidateScore) (w w' : W) :
  rank_c reel candidates max_eval w = (Ok out, w') ->
  Forall (fun s =>
            exists c, In c (slice_to max_eval candidates) /\
              video_id s = YtSearch.video_id c /\
              title s = YtSearch.title c /\
              yt_duration s = YtSearch.duration c /\
              _duration_ok (IgFetch.duration reel) (yt_duration s) = true /\
              fused_score s = ScoringSpec.recombined s /\
              fused_score s <= 1) out.
Proof.
  intros H.
  destruct (rank_candidates_inv _ _ _ _ _ _ H) as (new & -> & Hfrom & _).
  rewrite (sort_desc_perm fused_score new).
  eapply Forall_impl; [exact Hfrom|].
  intros s (c & Hc & w0 & w1 & Hrun). exists c. split; [exact Hc|].
  apply ScoringSpec.score_candidate_inv in Hrun.
  destruct Hrun as (Hgate & ? & ? & ? & ? & ? & ? & ? & ? & ? & _ & _ & _ & _ & ->).
  simpl. repeat split; try assumption. apply ScoringSpec.min1_le.
Qed.

(** The collaborators behave: a download returns a path or raises
    [FFMpegError]; hashing a frame directory and fingerprinting a video
    return valid 64-bit hashes; audio vectors, when present, have [dim]
    components. *)
Definition collaborators_behave (dim : nat) : Prop :=
  (forall url w, exists w1,
     (exists p, download_video url w = (Ok p, w1)) \/
     download_video url w = (Raise FFMpegError, w1)) /\
  (forall d w, exists hs w1,
     frame_hashes_from_dir d w = (Ok hs, w1) /\
     Forall HashFacts.valid_hash hs) /\
  (forall p w, exists hs av w1,
     quick_video_fp p w = (Ok (hs, av), w1) /\
     Forall HashFacts.valid_hash hs /\
     (forall v, av = Some v -> length v = dim)) /\
  (forall p w, exists av w1,
     audio_vec_from_wav p w = (Ok av, w1) /\
     (forall v, av = Some v -> length v = dim)).

Lemma frame_similarity_returns (a b : list string) (threshold : option Z) :
  Forall HashFacts.valid_hash a -> Forall HashFacts.valid_hash b ->
  exists st, frame_similarity_score cfg a b threshold = Ok st.
Proof.
  intros Hva Hvb.
  destruct a as [|a0 a'];
    [eexists; apply FrameSpec.frame_similarity_guard; left; reflexivity|].
  destruct b as [|b0 b'];
    [eexists; apply FrameSpec.frame_similarity_guard; right; reflexivity|].
  destruct (FrameSpec.frame_similarity_dists cfg (a0 :: a') (b0 :: b') threshold)
    as (dists & Hrun & _); try assumption; try discriminate.
  eexists. exact Hrun.
Qed.

Lemma score_candidate_total (dim : nat) (reel : IgFetch.ReelInfo)
    (cand : YtSearch.YTCandidate) (w : W) :
  collaborators_behave dim ->
  exists r w', score_c reel cand w = (Ok r, w').
Proof.
  intros (Hdl & Hig & Hyt & Hau). unfold score_candidate.
  destruct (_duration_ok _ _); simpl; [|do 2 eexists; reflexivity].
  destruct (Hdl (YtSearch.url cand) w) as [w1 [[p Hp]|Hf]].
  2:{ rewrite (bind_ok _ _ w w1 None).
      - do 2 eexists. reflexivity.
      - unfold Eff.except_ffmpeg, Eff.bind. rewrite Hf. reflexivity. }
  rewrite (bind_ok _ _ w w1 (Some p)).
  2:{ unfold Eff.except_ffmpeg, Eff.bind. rewrite Hp. reflexivity. }
  destruct (Hig (IgFetch.frames_dir reel) w1) as (igh & w2 & Higr & Hvig).
  rewrite (bind_ok _ _ _ _ _ Higr).
  destruct (Hyt p w2) as (yth & yta & w3 & Hytr & Hvyt & Hdimy).
  rewrite (bind_ok _ _ _ _ _ Hytr). simpl.
  destruct (frame_similarity_returns igh yth (Some (hash_threshold cfg)) Hvig Hvyt)
    as [fst Hfs].
  rewrite (bind_ok _ _ w3 w3 fst) by (unfold Eff.lift; rewrite Hfs; reflexivity).
  assert (Hia : exists iga w4,
             match IgFetch.audio_wav reel with
             | Some wav => audio_vec_from_wav wav
             | None => Eff.ret None
             end w3 = (Ok iga, w4) /\ (forall v, iga = Some v -> length v = dim)).
  { destruct (IgFetch.audio_wav reel) as [wav|].
    - destruct (Hau wav w3) as (av & w4 & Hr & Hd). exists av, w4. auto.
    - exists None, w3. split; [reflexivity | discriminate]. }
  destruct Hia as (iga & w4 & Hiar & Hdimi).
  rewrite (bind_ok _ _ _ _ _ Hiar).
  assert (Has : exists a,
             (if truthy_opt_list iga && truthy_opt_list yta
              then Eff.lift (audio_similarity_score norm iga yta)
              else Eff.ret 0.0) w4 = (Ok a, w4)).
  { destruct (truthy_opt_list iga && truthy_opt_list yta) eqn:E;
      [|eexists; reflexivity].
    apply andb_true_iff in E. destruct E as [Ei Ey].
    destruct iga as [va|]; [|discriminate].
    destruct yta as [vb|]; [|discriminate].
    destruct (AudioSpec.audio_similarity_returns norm va vb) as [r Hr].
    { rewrite (Hdimi va eq_refl), (Hdimy vb eq_refl). reflexivity. }
    exists r. unfold Eff.lift. rewrite Hr. reflexivity. }
  destruct Has as [a Has].
  rewrite (bind_ok _ _ _ _ _ Has).
  do 2 eexists. reflexivity.
Qed.

Lemma rank_loop_total (dim : nat) (reel : IgFetch.ReelInfo)
    (cands : list YtSearch.YTCandidate) (seen : gset string)
    (out : list CandidateScore) (w : W) :
  collaborators_behave dim ->
  exists out' w', loop_c reel cands seen out w = (Ok out', w').
Proof.
  intros Hb. revert seen out w.
  induction cands as [|c cands IH]; intros seen out w; simpl.
  - do 2 eexists. reflexivity.
  - destruct (decide (YtSearch.video_id c ∈ seen)); [apply IH|].
    destruct (score_candidate_total dim reel c w Hb) as (r & w1 & Hr).
    rewrite (bind_ok _ _ _ _ _ Hr). apply IH.
Qed.

(** With collaborators that behave, ranking always returns a list: it
    cannot raise. *)
Theorem rank_candidates_returns (dim : nat) (reel : IgFetch.ReelInfo)
    (candidates : list YtSearch.YTCandidate) (max_eval : Z) (w : W) :
  collaborators_behave dim ->
  exists out w', rank_c reel candidates max_eval w = (Ok out, w').
Proof.
  intros Hb. unfold rank_candidates.
  destruct (rank_loop_total dim reel (slice_to max_eval candidates) ∅ [] w Hb)
    as (out & w1 & Hr).
  rewrite (bind_ok _ _ _ _ _ Hr). do 2 eexists. reflexivity.
Qed.

End Collaborators.

End RankingSpec.

(** ** A sample run of the ranking *)

Module RankingSample.

Import Fingerprint Matcher PyList Ranking NpFacts.

(** The world counts the downloads made so far; one video is gone. *)
Definition download (url : string) : Eff.M nat string :=
  fun w =>
    if String.eqb url "https://www.youtube.com/watch?v=gone"
    then (Raise FFMpegError, w)
    else (Ok ("yt/" +:+ url), S w).

Definition frames (dir : string) : Eff.M nat (list string) :=
  Eff.ret FrameSpec.sample_a.

Definition video_fp (path : string)
  : Eff.M nat (list string * option (list Q)) :=
  Eff.ret (FrameSpec.sample_b, Some [3 # 5; 4 # 5]).

Definition audio_vec (path : string) : Eff.M nat (option (list Q)) :=
  Eff.ret (Some [4 # 5; 3 # 5]).

Definition unit_norm (v : list Q) : Q := 1.

Definition half_ratio (x y : string) : Q := 50.

Definition same_case (s : string) : string := s.

Definition no_reason (c : CombinedScore) (a t : Q) : string := "".

Definition reel : IgFetch.ReelInfo :=
  IgFetch.mkReelInfo "https://www.instagram.com/reel/x/" "ig/x.mp4" "clip"
    None 30 "frames/x" (Some "audio/x.wav") JNull.

Definition cand (id : string) (dur : option Q) : YtSearch.YTCandidate :=
  YtSearch.mkYTCandidate id ("https://www.youtube.com/watch?v=" +:+ id)
    "clip again" None dur [] None None 0.

(** A duplicate id, a video that cannot be fetched, one far too long, and
    one of unknown duration. *)
Definition cands : list YtSearch.YTCandidate :=
  [cand "first" (Some 31); cand "first" (Some 31); cand "gone" (Some 30);
   cand "long" (Some 120); cand "open" None].

Definition score_sample := 
  score_candidate FrameSpec.default_cfg download frames video_fp audio_vec
    unit_norm half_ratio same_case no_reason.

Definition rank_sample :=
  rank_candidates FrameSpec.default_cfg download frames video_fp audio_vec
    unit_norm half_ratio same_case no_reason.

Definition first_score : CandidateScore :=
  Eval vm_compute in
    match fst (score_sample reel (cand "first" (Some 31)) 0%nat) with
    | Ok (Some s) => s
    | _ => mkCandidateScore "" "" "" None None 0 0 0 0 0 0 ""
    end.

Definition ranked : list CandidateScore :=
  Eval vm_compute in
    match fst (rank_sample reel cands 12 0%nat) with
    | Ok out => out
    | Raise _ => []
    end.

Lemma score_sample_run :
  score_sample reel (cand "first" (Some 31)) 0%nat = (Ok (Some first_score), 1%nat).
Proof. vm_compute. reflexivity. Qed.

Lemma rank_sample_run : rank_sample reel cands 12 0%nat = (Ok ranked, 2%nat).
Proof. vm_compute. reflexivity. Qed.

Lemma frames_valid (d : string) (w0 : nat) (hs : list string) (w1 : nat) :
  frames d w0 = (Ok hs, w1) -> Forall HashFacts.valid_hash hs.
Proof. intros [= <- _]. apply FrameSpec.sample_a_valid. Qed.

Lemma video_fp_valid (p : string) (w0 : nat) (hs : list string)
    (av : option (list Q)) (w1 : nat) :
  video_fp p w0 = (Ok (hs, av), w1) -> Forall HashFacts.valid_hash hs.
Proof. intros [= <- _ _]. apply FrameSpec.sample_b_valid. Qed.

Lemma half_ratio_range (u v : string) : 0 <= half_ratio u v <= 100.
Proof. unfold half_ratio. lra. Qed.

Lemma sample_behave :
  RankingSpec.collaborators_behave download frames video_fp audio_vec 2.
Proof.
  repeat split.
  - intros url w. unfold download.
    destruct (String.eqb url "https://www.youtube.com/watch?v=gone").
    + exists w. right. reflexivity.
    + exists (S w). left. eexists. reflexivity.
  - intros d w. exists FrameSpec.sample_a, w.
    split; [reflexivity | apply FrameSpec.sample_a_valid].
  - intros p w. exists FrameSpec.sample_b, (Some [3 # 5; 4 # 5]), w.
    split; [reflexivity|]. split; [apply FrameSpec.sample_b_valid|].
    intros v [= <-]. reflexivity.
  - intros p w. exists (Some [4 # 5; 3 # 5]), w.
    split; [reflexivity|]. intros v [= <-]. reflexivity.
Qed.

End RankingSample.

Module RankingWitness.

Import Fingerprint Matcher PyList Ranking NpFacts RankingSample.

Lemma score_candidate_breakdown_witness :
  score_sample reel (cand "first" (Some 31)) 0%nat
    = (Ok (Some first_score), 1%nat) /\
  ((video_id first_score = YtSearch.video_id (cand "first" (Some 31)) /\
    url first_score = YtSearch.url (cand "first" (Some 31)) /\
    title first_score = YtSearch.title (cand "first" (Some 31)) /\
    channel first_score = YtSearch.channel (cand "first" (Some 31)) /\
    yt_duration first_score = YtSearch.duration (cand "first" (Some 31))) /\
   _duration_ok (IgFetch.duration reel) (yt_duration first_score) = true /\
   frame_score first_score == ScoringSpec.reblended first_score /\
   0 <= audio_score first_score <= 1 /\
   fused_score first_score = ScoringSpec.recombined first_score /\
   fused_score first_score <= 1).
Proof.
  split; [exact score_sample_run|].
  exact (ScoringSpec.score_candidate_breakdown FrameSpec.default_cfg
           download frames video_fp audio_vec unit_norm half_ratio same_case
           no_reason reel (cand "first" (Some 31)) 0%nat 1%nat first_score
           score_sample_run).
Defined.

Lemma score_candidate_ranges_witness :
  ((forall d w0 hs w1, frames d w0 = (Ok hs, w1) ->
                       Forall HashFacts.valid_hash hs) /\
   (forall p w0 hs av w1, video_fp p w0 = (Ok (hs, av), w1) ->
                          Forall HashFacts.valid_hash hs) /\
   (forall u v, 0 <= half_ratio u v <= 100) /\
   score_sample reel (cand "first" (Some 31)) 0%nat
     = (Ok (Some first_score), 1%nat)) /\
  (unit_range (frame_match_frac first_score) /\
   unit_range (frame_score first_score) /\
   within64 (frame_median first_score) /\
   unit_range (audio_score first_score) /\
   0 <= title_ratio first_score <= 0.15 /\
   unit_range (fused_score first_score)).
Proof.
  split;
    [split; [exact frames_valid|];
     split; [exact video_fp_valid|];
     split; [exact half_ratio_range | exact score_sample_run]|].
  exact (ScoringSpec.score_candidate_ranges FrameSpec.default_cfg
           download frames video_fp audio_vec unit_norm half_ratio same_case
           no_reason reel (cand "first" (Some 31)) 0%nat 1%nat first_score
           frames_valid video_fp_valid half_ratio_range score_sample_run).
Defined.

Lemma rank_candidates_sorted_witness :
  rank_sample reel cands 12 0%nat = (Ok ranked, 2%nat) /\
  (StronglySorted (fun x y => fused_score y <= fused_score x) ranked /\
   (forall best, pick_best ranked = Some best ->
      In best ranked /\
      forall e, In e ranked -> fused_score e <= fused_score best)).
Proof.
  split; [exact rank_sample_run|].
  exact (RankingSpec.rank_candidates_sorted FrameSpec.default_cfg
           download frames video_fp audio_vec unit_norm half_ratio same_case
           no_reason reel cands 12 ranked 0%nat 2%nat rank_sample_run).
Defined.

Lemma rank_candidates_distinct_witness :
  rank_sample reel cands 12 0%nat = (Ok ranked, 2%nat) /\
  (NoDup (video_id <$> ranked) /\
   (length ranked <= length cands)%nat /\
   ((0 <= 12)%Z -> (length ranked <= Z.to_nat 12)%nat)).
Proof.
  split; [exact rank_sample_run|].
  exact (RankingSpec.rank_candidates_distinct FrameSpec.default_cfg
           download frames video_fp audio_vec unit_norm half_ratio same_case
           no_reason reel cands 12 ranked 0%nat 2%nat rank_sample_run).
Defined.

Lemma rank_candidates_entries_witness :
  rank_sample reel cands 12 0%nat = (Ok ranked, 2%nat) /\
  Forall (fun s =>
            exists c, In c (slice_to 12 cands) /\
              video_id s = YtSearch.video_id c /\
              title s = YtSearch.title c /\
              yt_duration s = YtSearch.duration c /\
              _duration_ok (IgFetch.duration reel) (yt_duration s) = true /\
              fused_score s = ScoringSpec.recombined s /\
              fused_score s <= 1) ranked.
Proof.
  split; [exact rank_sample_run|].
  exact (RankingSpec.rank_candidates_entries FrameSpec.default_cfg
           download frames video_fp audio_vec unit_norm half_ratio same_case
           no_reason reel cands 12 ranked 0%nat 2%nat rank_sample_run).
Defined.

Lemma rank_candidates_returns_witness :
  RankingSpec.collaborators_behave download frames video_fp audio_vec 2 /\
  exists out w', rank_sample reel cands 12 0%nat = (Ok out, w').
Proof.
  split; [exact sample_behave|].
  exact (RankingSpec.rank_candidates_returns FrameSpec.default_cfg
           download frames video_fp audio_vec unit_norm half_ratio same_case
           no_reason 2 reel cands 12 0%nat sample_behave).
Defined.

(** The sample ranking: the duplicate, the unavailable and the
    over-long candidate are left out; two records remain. *)
Example ranked_ids : video_id <$> ranked = ["first"; "open"].
Proof. reflexivity. Qed.

End RankingWitness.

(** ** More on fusion, audio similarity and thresholds *)

Module ScoreFacts.

Import ImageHash Fingerprint HashFacts NpFacts OrderStats FrameOrder.

(** With the frame score in [0, 1] and an audio similarity of at most 1
    (possibly absent or negative) the fused score is in [0, 1]. *)
Theorem fuse_scores_unit_range (st : FrameMatchStats) (a : Q) :
  0 <= score st <= 1 -> a <= 1 -> 0 <= fused (fuse_scores st a) <= 1.
Proof.
  unfold fuse_scores. simpl. intros Hs Ha.
  destruct (Qlt_bool 0 a) eqn:E; bool_to_order; lra.
Qed.

Lemma fuse_scores_unit_range_witness :
  0 <= score (mkFrameMatchStats 3 3 2 4 0.5 0.8) <= 1 /\ 0.9 <= 1 /\
  0 <= fused (fuse_scores (mkFrameMatchStats 3 3 2 4 0.5 0.8) 0.9) <= 1.
Proof.
  assert (H1 : 0 <= score (mkFrameMatchStats 3 3 2 4 0.5 0.8) <= 1).
  { simpl. lra. }
  assert (H2 : 0.9 <= 1) by lra.
  split; [exact H1|]. split; [exact H2|].
  exact (fuse_scores_unit_range (mkFrameMatchStats 3 3 2 4 0.5 0.8) 0.9 H1 H2).
Defined.

Section WithNorm.

Variable norm : list Q -> Q.

(** A vector of zero norm matches nothing: its audio similarity with any
    non-empty vector, itself included, is 0.0.  The dot product is not
    taken then, so two vectors of different lengths do not raise. *)
Theorem audio_similarity_zero_norm (a b : list Q) :
  a <> [] -> b <> [] -> norm a == 0 \/ norm b == 0 ->
  audio_similarity_score norm (Some a) (Some b) = Ok 0.0.
Proof.
  intros Ha Hb Hz. unfold audio_similarity_score.
  destruct a as [|x a]; [congruence|]. destruct b as [|y b]; [congruence|].
  cbn [truthy_opt_list truthy_list negb orb].
  change (default [] (Some (x :: a))) with (x :: a).
  change (default [] (Some (y :: b))) with (y :: b).
  unfold cosine.
  assert (E : Qeq_bool (norm (x :: a)) 0 || Qeq_bool (norm (y :: b)) 0 = true).
  { apply orb_true_iff.
    destruct Hz as [Hz|Hz]; [left|right]; apply Qeq_bool_iff, Hz. }
  rewrite E. reflexivity.
Qed.

End WithNorm.


(** A norm with rational values: the sum of the absolute values. *)
Definition taxicab (v : list Q) : Q := Np.sum (Qabs <$> v).

Lemma audio_similarity_zero_norm_witness :
  (([0; 0] : list Q) <> [] /\ ([1; 2; 3] : list Q) <> [] /\
   (taxicab [0; 0] == 0 \/ taxicab [1; 2; 3] == 0)) /\
  audio_similarity_score taxicab (Some [0; 0]) (Some [1; 2; 3]) = Ok 0.0.
Proof.
  assert (H1 : ([0; 0] : list Q) <> []) by discriminate.
  assert (H2 : ([1; 2; 3] : list Q) <> []) by discriminate.
  assert (H3 : taxicab [0; 0] == 0 \/ taxicab [1; 2; 3] == 0)
    by (left; reflexivity).
  split; [repeat split; assumption|].
  exact (audio_similarity_zero_norm taxicab [0; 0] [1; 2; 3] H1 H2 H3).
Defined.

Lemma median_const (arr : list Q) (c : Q) :
  arr <> [] -> Forall (fun x => x == c) arr -> Np.median arr == c.
Proof.
  intros Hne Hall. pose proof (sort_Forall _ _ Hall) as Hs.
  assert (Hlen : (0 < length (Np.sort arr))%nat).
  { rewrite sort_length. destruct arr; [congruence | simpl; lia]. }
  assert (Hnth : forall i, (i < length arr)%nat -> nth i (Np.sort arr) 0 == c).
  { intros i Hi. rewrite List.Forall_forall in Hs. apply Hs, nth_In.
    rewrite sort_length. exact Hi. }
  assert (Hhalf : (length arr / 2 < length arr)%nat).
  { apply Nat.div_lt; [|lia]. destruct arr; [congruence | simpl; lia]. }
  unfold Np.median. destruct (Nat.even (length arr)).
  - rewrite (Hnth (length arr / 2)%nat Hhalf).
    rewrite (Hnth (length arr / 2 - 1)%nat) by lia. field.
  - apply Hnth, Hhalf.
Qed.

Lemma mean_le_none (arr : list Q) (t : Z) :
  Forall (fun x => inject_Z t < x) arr -> Np.mean_le arr t == 0.
Proof.
  intros Hall. rewrite mean_le_count.
  rewrite (count_le_none _ _ Hall). unfold Qdiv. simpl inject_Z.
  apply Qmult_0_l.
Qed.

(** When every hash of [a] differs from every hash of [b] in all 64 bits
    and the threshold is below 64, nothing matches: median 64, match
    fraction 0, frame score 0. *)
Theorem frame_similarity_opposite (cfg : CFG) (a b : list string)
    (threshold : option Z) :
  a <> [] -> b <> [] -> Forall valid_hash a -> Forall valid_hash b ->
  (forall x y, In x a -> In y b -> dist x y = 64%Z) ->
  (default (hash_threshold cfg) threshold < 64)%Z ->
  exists st,
    frame_similarity_score cfg a b threshold = Ok st /\
    median st == 64 /\ match_frac st == 0 /\ score st == 0.
Proof.
  intros Ha Hb Hva Hvb Hfar Ht.
  eexists. split; [apply frame_similarity_closed; assumption|].
  set (t := default (hash_threshold cfg) threshold) in *.
  assert (Hd : Forall (fun d => d = 64%Z) (nn b <$> a)).
  { apply Forall_fmap, List.Forall_forall. intros x Hx. simpl.
    destruct (nn_spec b x Hb) as [(y & Hy & ->) _]. apply Hfar; assumption. }
  assert (Hne : inject_Z <$> (nn b <$> a) <> []).
  { destruct a; [congruence | discriminate]. }
  assert (Hmed : Np.median (inject_Z <$> (nn b <$> a)) == 64).
  { apply median_const; [exact Hne|].
    apply Forall_fmap. eapply Forall_impl; [exact Hd|].
    intros d ->. simpl. reflexivity. }
  assert (Hmf : Np.mean_le (inject_Z <$> (nn b <$> a)) t == 0).
  { apply mean_le_none. apply Forall_fmap. eapply Forall_impl; [exact Hd|].
    intros d ->. simpl. rewrite <- Zlt_Qlt. exact Ht. }
  simpl. split; [exact Hmed|]. split; [exact Hmf|].
  destruct (max_spec 0.0 (1.0 - Np.median (inject_Z <$> (nn b <$> a)) / 64.0))
    as [[Hc ->]|[Hc ->]]; rewrite FrameSpec.div64 in *; lra.
Qed.

Lemma frame_similarity_opposite_witness :
  ((["ffffffffffffffff"] : list string) <> [] /\
   (["0000000000000000"] : list string) <> [] /\
   Forall valid_hash ["ffffffffffffffff"] /\
   Forall valid_hash ["0000000000000000"] /\
   (forall x y, In x ["ffffffffffffffff"] -> In y ["0000000000000000"] ->
                dist x y = 64%Z) /\
   (default (hash_threshold FrameSpec.default_cfg) None < 64)%Z) /\
  exists st,
    frame_similarity_score FrameSpec.default_cfg
      ["ffffffffffffffff"] ["0000000000000000"] None = Ok st /\
    median st == 64 /\ match_frac st == 0 /\ score st == 0.
Proof.
  assert (H1 : (["ffffffffffffffff"] : list string) <> []) by discriminate.
  assert (H2 : (["0000000000000000"] : list string) <> []) by discriminate.
  assert (H3 : Forall valid_hash ["ffffffffffffffff"]) by FrameSpec.valid_hashes.
  assert (H4 : Forall valid_hash ["0000000000000000"]) by FrameSpec.valid_hashes.
  assert (H5 : forall x y, In x ["ffffffffffffffff"] ->
                           In y ["0000000000000000"] -> dist x y = 64%Z).
  { intros x y [<-|[]] [<-|[]]. reflexivity. }
  assert (H6 : (default (hash_threshold FrameSpec.default_cfg) None < 64)%Z)
    by (simpl; lia).
  split; [repeat split; assumption|].
  exact (frame_similarity_opposite FrameSpec.default_cfg
           ["ffffffffffffffff"] ["0000000000000000"] None H1 H2 H3 H4 H5 H6).
Defined.

Lemma mean_le_threshold_mono (arr : list Q) (t t' : Z) :
  (t <= t')%Z -> Np.mean_le arr t <= Np.mean_le arr t'.
Proof.
  intros Ht. rewrite !mean_le_count. unfold Qdiv. apply Qmult_le_compat_r.
  - rewrite <- Zle_Qle. apply inj_le. unfold count_le.
    induction arr as [|x arr IH]; [reflexivity|].
    destruct (Qlt_le_dec (inject_Z t) x) as [Hlt|Hle].
    + rewrite (filter_cons_False _ x) by lra.
      destruct (Qlt_le_dec (inject_Z t') x) as [Hlt'|Hle'].
      * rewrite (filter_cons_False _ x) by lra. exact IH.
      * rewrite (filter_cons_True _ x) by exact Hle'. simpl. lia.
    + assert (Hle' : x <= inject_Z t').
      { rewrite (Zle_Qle t t') in Ht. lra. }
      rewrite (filter_cons_True _ x) by exact Hle.
      rewrite (filter_cons_True _ x) by exact Hle'. simpl. lia.
  - apply Qinv_le_0_compat. apply size_nonneg.
Qed.

Lemma stats_threshold_mono (d : list Z) (t t' : Z) :
  (t <= t')%Z ->
  median (stats_of_dists d t') = median (stats_of_dists d t) /\
  mean (stats_of_dists d t') = mean (stats_of_dists d t) /\
  p25 (stats_of_dists d t') = p25 (stats_of_dists d t) /\
  p75 (stats_of_dists d t') = p75 (stats_of_dists d t) /\
  match_frac (stats_of_dists d t) <= match_frac (stats_of_dists d t') /\
  score (stats_of_dists d t) <= score (stats_of_dists d t').
Proof.
  intros Ht. unfold stats_of_dists. cbn [median mean p25 p75 match_frac score].
  pose proof (mean_le_threshold_mono (inject_Z <$> d) t t' Ht) as Hmf.
  repeat split; try reflexivity; [exact Hmf | lra].
Qed.

(** Raising the threshold never lowers the match fraction or the frame
    score, and leaves the distance statistics as they are. *)
Theorem frame_similarity_threshold_mono (cfg : CFG) (a b : list string)
    (t t' : Z) :
  Forall valid_hash a -> Forall valid_hash b -> (t <= t')%Z ->
  exists st st',
    frame_similarity_score cfg a b (Some t) = Ok st /\
    frame_similarity_score cfg a b (Some t') = Ok st' /\
    median st' = median st /\ mean st' = mean st /\
    p25 st' = p25 st /\ p75 st' = p75 st /\
    match_frac st <= match_frac st' /\ score st <= score st'.
Proof.
  intros Hva Hvb Ht.
  destruct a as [|a0 a1].
  { exists FrameSpec.worst_stats, FrameSpec.worst_stats.
    rewrite !FrameSpec.frame_similarity_guard by (left; reflexivity).
    repeat split; simpl; lra. }
  destruct b as [|b0 b1].
  { exists FrameSpec.worst_stats, FrameSpec.worst_stats.
    rewrite !FrameSpec.frame_similarity_guard by (right; reflexivity).
    repeat split; simpl; lra. }
  do 2 eexists.
  split; [apply frame_similarity_closed; assumption || discriminate|].
  split; [apply frame_similarity_closed; assumption || discriminate|].
  apply (stats_threshold_mono (nn (b0 :: b1) <$> a0 :: a1) t t' Ht).
Qed.

Lemma frame_similarity_threshold_mono_witness :
  (Forall valid_hash FrameSpec.sample_a /\
   Forall valid_hash FrameSpec.sample_b /\ (8 <= 60)%Z) /\
  exists st st',
    frame_similarity_score FrameSpec.default_cfg
      FrameSpec.sample_a FrameSpec.sample_b (Some 8%Z) = Ok st /\
    frame_similarity_score FrameSpec.default_cfg
      FrameSpec.sample_a FrameSpec.sample_b (Some 60%Z) = Ok st' /\
    median st' = median st /\ mean st' = mean st /\
    p25 st' = p25 st /\ p75 st' = p75 st /\
    match_frac st <= match_frac st' /\ score st <= score st'.
Proof.
  assert (H : (8 <= 60)%Z) by lia.
  split; [repeat split;
          [apply FrameSpec.sample_a_valid | apply FrameSpec.sample_b_valid
          | exact H]|].
  exact (frame_similarity_threshold_mono FrameSpec.default_cfg
           FrameSpec.sample_a FrameSpec.sample_b 8 60
           FrameSpec.sample_a_valid FrameSpec.sample_b_valid H).
Defined.

End ScoreFacts.

(** * More of app/core/fingerprint.py *)

Module FrameDir.

Import PyList.

Section Hashing.

(** [_hash_image(p)]: the hash of one frame file, or the exception that
    opening or decoding it raises. *)
Variable _hash_image : string -> result string.

(** [frame_hashes_from_dir(frames_dir, limit)]; [frames] is
    [sorted(frames_dir.glob("frame_*.jpg"))]. *)
Definition frame_hashes_from_dir (frames : list string) (limit : option Z)
  : result (list string) :=
  let frames :=
    if truthy_opt_int limit then slice_to (default 0%Z limit) frames
    else frames in
  mapM _hash_image frames.

End Hashing.

End FrameDir.

Module AudioCache.

Import Fingerprint.

Section Chroma.

(** [np.linalg.norm]. *)
Variable norm : list Q -> Q.

(** [audio_vec_from_wav(wav_path)].  [sig] is the signature of the file,
    [loaded] the samples [librosa.load] returns (or its exception),
    [chroma] the time average of [librosa.feature.chroma_cens] over them
    (or its exception), [fs] the files of the fingerprint directory.
    Python's [None] is the value [JNull]. *)
Definition audio_vec_from_wav (sig : string) (loaded : result (list Q))
    (chroma : result (list Q)) (fs : gmap string file)
  : result json * gmap string file :=
  let cache := "audio_" +:+ sig +:+ ".json" in
  let compute :=
    match loaded with
    | Raise _ => (Ok JNull, fs)
    | Ok y =>
        if negb (truthy_list y) then (Ok JNull, fs)
        else
          match chroma with
          | Raise _ => (Ok JNull, fs)
          | Ok v =>
              let n := norm v in
              if Qeq_bool n 0 then (Ok JNull, fs)
              else
                let vec := JArr (JNum <$> ((fun x => x / n) <$> v)) in
                (Ok vec,
                 _save_json fs cache
                   (JObj (<["ver" := JStr _VER]> (<["vec" := vec]> ∅))))
          end
    end in
  if bool_decide (is_Some (fs !! cache)) then
    match _load_json fs cache with
    | None => compute
    | Some data =>
        if truthy_json data then
          match data with
          | JObj m =>
              if eq_str (m !! "ver") _VER
              then (Ok (default JNull (m !! "vec")), fs)
              else compute
          | _ => (Raise AttributeError, fs)
          end
        else compute
    end
  else compute.

End Chroma.

End AudioCache.

(** ** Properties of the frame hashing, the audio cache and deduplication *)

Module MoreFingerprintSpec.

Import PyList Fingerprint.

Lemma mapM_ok_Forall2 {A B : Type} (f : A -> result B) (l : list A)
    (ys : list B) :
  mapM f l = Ok ys -> Forall2 (fun x y => f x = Ok y) l ys.
Proof.
  revert ys. induction l as [|x l IH]; intros ys.
  - intros [= <-]. constructor.
  - rewrite FrameOrder.mapM_cons_result.
    destruct (f x) as [y|e] eqn:Ex; [|discriminate]. cbn [mbind result_bind].
    destruct (mapM f l) as [ys'|e]; [|discriminate]. cbn [mbind result_bind].
    intros [= <-]. constructor; [exact Ex | apply IH; reflexivity].
Qed.

Lemma mapM_raise {A B : Type} (f : A -> result B) (l : list A) (x : A)
    (e : exn) :
  In x l -> f x = Raise e -> exists e', mapM f l = Raise e'.
Proof.
  induction l as [|y l IH]; [intros []|].
  intros [->|Hin] Hx; rewrite FrameOrder.mapM_cons_result.
  - rewrite Hx. eexists. reflexivity.
  - destruct (f y); [|eexists; reflexivity]. cbn [mbind result_bind].
    destruct (IH Hin Hx) as [e' ->]. eexists. reflexivity.
Qed.

(** How many frames are hashed: all of them without a limit or with
    limit 0, the first [limit] with a positive limit, all but the last
    [-limit] with a negative one. *)
Definition kept_count (n : nat) (limit : option Z) : nat :=
  match limit with
  | None => n
  | Some l =>
      if (l =? 0)%Z then n
      else if (0 <? l)%Z then Nat.min (Z.to_nat l) n
      else (n - Z.to_nat (- l))%nat
  end.

Lemma kept_frames (frames : list string) (limit : option Z) :
  (if truthy_opt_int limit then slice_to (default 0%Z limit) frames else frames)
  = take (kept_count (length frames) limit) frames.
Proof.
  unfold kept_count, truthy_opt_int, slice_to.
  destruct limit as [l|]; simpl; [|rewrite firstn_all; reflexivity].
  destruct (Z.eqb_spec l 0) as [->|Hl]; simpl; [rewrite firstn_all; reflexivity|].
  destruct (Z.ltb_spec 0 l) as [Hpos|Hneg].
  - rewrite (proj2 (Z.leb_le 0 l)) by lia.
    destruct (Nat.le_ge_cases (Z.to_nat l) (length frames)) as [H|H].
    + rewrite Nat.min_l by exact H. reflexivity.
    + rewrite Nat.min_r by exact H.
      rewrite firstn_all. apply firstn_all2. exact H.
  - rewrite (proj2 (Z.leb_gt 0 l)) by lia. reflexivity.
Qed.

Section Hashing.

Variable _hash_image : string -> result string.

(** A successful call returns the hashes of the first frames, one per
    frame and in frame order: all frames without a limit or with limit 0,
    at most [limit] of them with a positive limit. *)
Theorem frame_hashes_in_order (frames : list string) (limit : option Z)
    (hs : list string) :
  FrameDir.frame_hashes_from_dir _hash_image frames limit = Ok hs ->
  length hs = kept_count (length frames) limit /\
  (length hs <= length frames)%nat /\
  Forall2 (fun f h => _hash_image f = Ok h) (take (length hs) frames) hs.
Proof.
  unfold FrameDir.frame_hashes_from_dir. rewrite kept_frames. intros H.
  apply mapM_ok_Forall2 in H.
  pose proof (Forall2_length _ _ _ H) as Hlen. rewrite length_take in Hlen.
  assert (Hk : (kept_count (length frames) limit <= length frames)%nat).
  { unfold kept_count. destruct limit as [l|]; [|lia].
    destruct (l =? 0)%Z; [lia|]. destruct (0 <? l)%Z; lia. }
  assert (E : length hs = kept_count (length frames) limit) by lia.
  split; [exact E|]. split; [lia|]. rewrite E. exact H.
Qed.

(** One frame among those to hash that cannot be hashed makes the whole
    call raise: no partial list is returned. *)
Theorem frame_hashes_all_or_nothing (frames : list string)
    (limit : option Z) (f : string) (e : exn) :
  In f (take (kept_count (length frames) limit) frames) ->
  _hash_image f = Raise e ->
  exists e', FrameDir.frame_hashes_from_dir _hash_image frames limit = Raise e'.
Proof.
  unfold FrameDir.frame_hashes_from_dir. rewrite kept_frames.
  apply mapM_raise.
Qed.

End Hashing.

(** A hasher that knows two frames and fails on the others. *)
Definition two_frames (p : string) : result string :=
  if String.eqb p "frame_000001.jpg" then Ok "ffffffffffffffff"
  else if String.eqb p "frame_000002.jpg" then Ok "0000000000000000"
  else Raise ValueError.

Lemma frame_hashes_in_order_witness :
  FrameDir.frame_hashes_from_dir two_frames
    ["frame_000001.jpg"; "frame_000002.jpg"; "frame_000003.jpg"] (Some 2%Z)
  = Ok ["ffffffffffffffff"; "0000000000000000"] /\
  (length ["ffffffffffffffff"; "0000000000000000"]
   = kept_count
       (length ["frame_000001.jpg"; "frame_000002.jpg"; "frame_000003.jpg"])
       (Some 2%Z) /\
   (length ["ffffffffffffffff"; "0000000000000000"]
    <= length ["frame_000001.jpg"; "frame_000002.jpg"; "frame_000003.jpg"])%nat /\
   Forall2 (fun f h => two_frames f = Ok h)
     (take (length ["ffffffffffffffff"; "0000000000000000"])
        ["frame_000001.jpg"; "frame_000002.jpg"; "frame_000003.jpg"])
     ["ffffffffffffffff"; "0000000000000000"]).
Proof.
  assert (H : FrameDir.frame_hashes_from_dir two_frames
                ["frame_000001.jpg"; "frame_000002.jpg"; "frame_000003.jpg"]
                (Some 2%Z)
              = Ok ["ffffffffffffffff"; "0000000000000000"]) by reflexivity.
  split; [exact H|].
  exact (frame_hashes_in_order two_frames
           ["frame_000001.jpg"; "frame_000002.jpg"; "frame_000003.jpg"]
           (Some 2%Z) ["ffffffffffffffff"; "0000000000000000"] H).
Defined.

Lemma frame_hashes_all_or_nothing_witness :
  (In "frame_000003.jpg"
     (take (kept_count
              (length ["frame_000001.jpg"; "frame_000002.jpg"; "frame_000003.jpg"])
              (Some 0%Z))
        ["frame_000001.jpg"; "frame_000002.jpg"; "frame_000003.jpg"]) /\
   two_frames "frame_000003.jpg" = Raise ValueError) /\
  exists e',
    FrameDir.frame_hashes_from_dir two_frames
      ["frame_000001.jpg"; "frame_000002.jpg"; "frame_000003.jpg"] (Some 0%Z)
    = Raise e'.
Proof.
  assert (H1 : In "frame_000003.jpg"
                 (take (kept_count
                          (length ["frame_000001.jpg"; "frame_000002.jpg";
                                   "frame_000003.jpg"]) (Some 0%Z))
                    ["frame_000001.jpg"; "frame_000002.jpg"; "frame_000003.jpg"]))
    by (simpl; auto).
  assert (H2 : two_frames "frame_000003.jpg" = Raise ValueError) by reflexivity.
  split; [split; assumption|].
  exact (frame_hashes_all_or_nothing two_frames
           ["frame_000001.jpg"; "frame_000002.jpg"; "frame_000003.jpg"]
           (Some 0%Z) "frame_000003.jpg" ValueError H1 H2).
Defined.

End MoreFingerprintSpec.

Module AudioCacheSpec.

Import Fingerprint AudioCache.

(** The cache file of an audio signature. *)
Definition audio_path (sig : string) : string := "audio_" +:+ sig +:+ ".json".

(** The record stored for a vector. *)
Definition audio_record (vec : json) : json :=
  JObj (<["ver" := JStr _VER]> (<["vec" := vec]> ∅)).

Section Chroma.

Variable norm : list Q -> Q.




(** A vector stored by one call is what the next call for the same
    signature returns, without analysing the audio again. *)
Theorem audio_vec_stored_then_hit (sig : string) (vec : json)
    (loaded chroma : result (list Q)) (fs : gmap string file) :
  audio_vec_from_wav norm sig loaded chroma
    (<[audio_path sig := Json (audio_record vec)]> fs)
  = (Ok vec, <[audio_path sig := Json (audio_record vec)]> fs).
Proof.
  unfold audio_vec_from_wav, _load_json. fold (audio_path sig).
  rewrite lookup_insert_eq.
  rewrite bool_decide_eq_true_2 by (eexists; reflexivity).
  unfold audio_record. simpl truthy_json.
  rewrite bool_decide_eq_false_2.
  2:{ intros Habs.
      assert (Hl : (<["ver" := JStr _VER]> (<["vec" := vec]> ∅) : gmap string json)
                     !! "ver" = Some (JStr _VER)) by apply lookup_insert_eq.
      rewrite Habs, lookup_empty in Hl. discriminate. }
  simpl negb. cbv iota.
  rewrite lookup_insert_eq. simpl eq_str. cbv iota.
  rewrite lookup_insert_ne by discriminate. rewrite lookup_insert_eq.
  reflexivity.
Qed.

End Chroma.


End AudioCacheSpec.

(** ** Deduplication of candidates ([_dedupe]) *)

Module DedupeSpec.

Import YtSearch.

Lemma dedupe_from_spec (seen : gset string) (cands : list YTCandidate) :
  NoDup (video_id <$> dedupe_from seen cands) /\
  Forall (fun c => video_id c ∉ seen) (dedupe_from seen cands) /\
  sublist (dedupe_from seen cands) cands /\
  (forall c, In c cands ->
     video_id c ∈ seen \/
     exists d, In d (dedupe_from seen cands) /\ video_id d = video_id c).
Proof.
  revert seen. induction cands as [|c cands IH]; intros seen; simpl.
  - split; [constructor|]. split; [constructor|]. split; [constructor|].
    intros c' [].
  - destruct (decide (video_id c ∈ seen)) as [Hin|Hnin].
    + destruct (IH seen) as (Hnd & Hns & Hsub & Hcov).
      repeat split; try assumption.
      * apply sublist_cons, Hsub.
      * intros c' [<-|Hc']; [left; exact Hin | apply Hcov, Hc'].
    + destruct (IH ({[video_id c]} ∪ seen)) as (Hnd & Hns & Hsub & Hcov).
      repeat split.
      * simpl. constructor; [|exact Hnd].
        intros Hmem. apply list_elem_of_fmap in Hmem.
        destruct Hmem as (d & Hid & Hd).
        rewrite List.Forall_forall in Hns. apply list_elem_of_In in Hd.
        specialize (Hns d Hd). rewrite <- Hid in Hns. apply Hns.
        apply elem_of_union. left. apply elem_of_singleton. reflexivity.
      * constructor; [exact Hnin|].
        eapply Forall_impl; [exact Hns|]. intros d Hd Hmem. apply Hd.
        apply elem_of_union. right. exact Hmem.
      * apply sublist_skip, Hsub.
      * intros c' [<-|Hc'].
        -- right. exists c. split; [left; reflexivity | reflexivity].
        -- destruct (Hcov c' Hc') as [Hseen|(d & Hd & Hid)].
           ++ apply elem_of_union in Hseen. destruct Hseen as [Hs|Hs].
              ** right. exists c. split; [left; reflexivity|].
                 apply elem_of_singleton in Hs. symmetry. exact Hs.
              ** left. exact Hs.
           ++ right. exists d. split; [right; exact Hd | exact Hid].
Qed.

Lemma dedupe_from_fixed (seen : gset string) (cands : list YTCandidate) :
  NoDup (video_id <$> cands) ->
  Forall (fun c => video_id c ∉ seen) cands ->
  dedupe_from seen cands = cands.
Proof.
  revert seen. induction cands as [|c cands IH]; intros seen Hnd Hns;
    [reflexivity|].
  simpl. apply NoDup_cons in Hnd. destruct Hnd as [Hc Hnd].
  apply Forall_cons in Hns. destruct Hns as [Hcs Hns].
  destruct (decide (video_id c ∈ seen)); [contradiction|].
  f_equal. apply IH; [exact Hnd|].
  rewrite List.Forall_forall in *. intros d Hd.
  specialize (Hns d Hd). intros Hmem.
  apply elem_of_union in Hmem. destruct Hmem as [Hs|Hs]; [|contradiction].
  apply elem_of_singleton in Hs. apply Hc.
  rewrite <- Hs. apply list_elem_of_fmap. exists d.
  split; [reflexivity | apply list_elem_of_In, Hd].
Qed.

(** [_dedupe] keeps one candidate per video id, in the order given (each
    the first with its id), and loses no id. *)
Theorem dedupe_keeps_first (cands : list YTCandidate) :
  NoDup (video_id <$> _dedupe cands) /\
  sublist (_dedupe cands) cands /\
  (forall c, In c cands ->
     exists d, In d (_dedupe cands) /\ video_id d = video_id c) /\
  (forall c rest, cands = c :: rest -> exists kept, _dedupe cands = c :: kept).
Proof.
  unfold _dedupe.
  destruct (dedupe_from_spec ∅ cands) as (Hnd & _ & Hsub & Hcov).
  repeat split; try assumption.
  - intros c Hc. destruct (Hcov c Hc) as [Hs|H]; [set_solver | exact H].
  - intros c rest ->. simpl.
    destruct (decide (video_id c ∈ (∅ : gset string))); [set_solver|].
    eexists. reflexivity.
Qed.

(** A list without repeated ids is left as it is; so deduplicating twice
    is deduplicating once. *)
Theorem dedupe_idempotent (cands : list YTCandidate) :
  (NoDup (video_id <$> cands) -> _dedupe cands = cands) /\
  _dedupe (_dedupe cands) = _dedupe cands.
Proof.
  assert (Hfix : forall l : list YTCandidate,
             NoDup (video_id <$> l) -> _dedupe l = l).
  { intros l Hnd. unfold _dedupe. apply dedupe_from_fixed; [exact Hnd|].
    apply List.Forall_forall. intros c _. set_solver. }
  split; [apply Hfix|].
  apply Hfix. unfold _dedupe. apply (dedupe_from_spec ∅ cands).
Qed.

End DedupeSpec.

(** * app/core/pipeline.py: the cache key of a request *)

Module Pipeline.

Import PyList.

Local Open Scope string_scope.

(** [s.split(c)[0]]: the part before the first [c]. *)
Fixpoint before (c : ascii) (s : string) : string :=
  match s with
  | EmptyString => EmptyString
  | String x s' => if Ascii.eqb x c then EmptyString else String x (before c s')
  end.

(** [s.rstrip(c)]: [s] without its trailing [c]s. *)
Fixpoint rstrip (c : ascii) (s : string) : string :=
  match s with
  | EmptyString => EmptyString
  | String x s' =>
      match rstrip c s' with
      | EmptyString => if Ascii.eqb x c then EmptyString else String x EmptyString
      | r => String x r
      end
  end.

Section Strip.

(** [str.strip]: which characters count as blanks is Python's business. *)
Variable strip : string -> string.

(** [_norm_url(u)]. *)
Definition _norm_url (u : string) : string :=
  let u := strip u in
  if negb (truthy_str u) then u
  else
    let u :=
      if negb (String.prefix "http://" u || String.prefix "https://" u)
      then "https://" ++ u
      else u in
    rstrip "/" (before "?" u) ++ "/".

End Strip.

End Pipeline.

Module PipelineSpec.

Import PyList Pipeline.

Local Open Scope string_scope.

(** [c] occurs in [s]. *)
Fixpoint occurs (c : ascii) (s : string) : Prop :=
  match s with
  | EmptyString => False
  | String x s' => x = c \/ occurs c s'
  end.

(** The last character of [s]. *)
Fixpoint last_char (s : string) : option ascii :=
  match s with
  | EmptyString => None
  | String x EmptyString => Some x
  | String _ s' => last_char s'
  end.

Lemma before_no_occurs (c : ascii) (s : string) : ~ occurs c (before c s).
Proof.
  induction s as [|x s IH]; simpl; [tauto|].
  destruct (Ascii.eqb_spec x c) as [->|Hne]; simpl; [tauto|].
  intros [H|H]; [contradiction | exact (IH H)].
Qed.

Lemma rstrip_occurs (c d : ascii) (s : string) :
  occurs d (rstrip c s) -> occurs d s.
Proof.
  induction s as [|x s IH]; simpl; [tauto|].
  destruct (rstrip c s) as [|y r] eqn:E.
  - destruct (Ascii.eqb x c); simpl; tauto.
  - simpl. intros [H|H]; [left; exact H | right; apply IH; exact H].
Qed.

Lemma rstrip_last (c : ascii) (s : string) : last_char (rstrip c s) <> Some c.
Proof.
  induction s as [|x s IH]; simpl; [discriminate|].
  destruct (rstrip c s) as [|y r] eqn:E.
  - destruct (Ascii.eqb_spec x c) as [->|Hne]; simpl; [discriminate|].
    intros [= H]. contradiction.
  - simpl. exact IH.
Qed.

Lemma append_occurs (c : ascii) (s t : string) :
  occurs c (s ++ t) <-> occurs c s \/ occurs c t.
Proof. induction s as [|x s IH]; simpl; [tauto|]. rewrite IH. tauto. Qed.

Lemma before_append (c : ascii) (s t : string) :
  ~ occurs c s -> before c (s ++ String c t) = s.
Proof.
  induction s as [|x s IH]; simpl; intros Hno.
  - rewrite Ascii.eqb_refl. reflexivity.
  - destruct (Ascii.eqb_spec x c) as [->|Hne]; [tauto|].
    rewrite IH by tauto. reflexivity.
Qed.

Lemma before_fixed (c : ascii) (s : string) :
  ~ occurs c s -> before c s = s.
Proof.
  induction s as [|x s IH]; simpl; intros Hno; [reflexivity|].
  destruct (Ascii.eqb_spec x c) as [->|Hne]; [tauto|].
  rewrite IH by tauto. reflexivity.
Qed.

Lemma prefix_append (c : ascii) (p s t : string) :
  ~ occurs c p -> String.prefix p (s ++ String c t) = String.prefix p s.
Proof.
  revert s. induction p as [|x p IH]; intros s Hno; [destruct s; reflexivity|].
  destruct s as [|y s]; simpl.
  - destruct (Ascii.ascii_dec x c) as [->|Hne]; [simpl in Hno; tauto | reflexivity].
  - destruct (Ascii.ascii_dec x y); [|reflexivity].
    apply IH. simpl in Hno. tauto.
Qed.

Section Strip.

Variable strip : string -> string.

(** A url that is not blank is normalised to a text without a query that
    ends with exactly one slash. *)
Theorem norm_url_shape (u : string) :
  strip u <> "" ->
  exists r,
    _norm_url strip u = r ++ "/" /\
    ~ occurs "?" r /\ last_char r <> Some "/"%char.
Proof.
  intros Hne. unfold _norm_url.
  assert (Ht : truthy_str (strip u) = true).
  { unfold truthy_str. destruct (String.eqb_spec (strip u) ""); [contradiction|].
    reflexivity. }
  rewrite Ht. simpl negb. cbv iota.
  eexists. split; [reflexivity|]. split.
  - intros H. apply rstrip_occurs in H. exact (before_no_occurs _ _ H).
  - apply rstrip_last.
Qed.

(** The query does not count: two urls that differ only in what follows
    the first question mark are normalised alike. *)
Theorem norm_url_drops_query (u u' s q : string) :
  strip u = s -> strip u' = s ++ String "?" q ->
  s <> "" -> ~ occurs "?" s ->
  _norm_url strip u' = _norm_url strip u.
Proof.
  intros Hs Hs' Hne Hno. unfold _norm_url. rewrite Hs, Hs'.
  assert (Ht : truthy_str s = true).
  { unfold truthy_str. destruct (String.eqb_spec s ""); [contradiction|].
    reflexivity. }
  assert (Ht' : truthy_str (s ++ String "?" q) = true).
  { unfold truthy_str. destruct (String.eqb_spec (s ++ String "?" q) "") as [E|];
      [|reflexivity].
    destruct s; discriminate. }
  rewrite Ht, Ht'. simpl negb. cbv iota.
  rewrite !(prefix_append "?" _ s q) by (simpl; intuition discriminate).
  destruct (negb (String.prefix "http://" s || String.prefix "https://" s)).
  - change ("https://" ++ (s ++ String "?" q))
      with (String "h" (String "t" (String "t" (String "p" (String "s"
             (String ":" (String "/" (String "/" (s ++ String "?" q))))))))).
    change ("https://" ++ s)
      with (String "h" (String "t" (String "t" (String "p" (String "s"
             (String ":" (String "/" (String "/" s)))))))).
    simpl before. rewrite (before_append "?" s q Hno).
    rewrite (before_fixed "?" s Hno). reflexivity.
  - rewrite (before_append "?" s q Hno), (before_fixed "?" s Hno). reflexivity.
Qed.

End Strip.

(** A [strip] for the examples: nothing to strip. *)
Definition no_blanks (s : string) : string := s.

Lemma norm_url_shape_witness :
  no_blanks "instagram.com/reel/abc//?igsh=1" <> "" /\
  exists r,
    _norm_url no_blanks "instagram.com/reel/abc//?igsh=1" = r ++ "/" /\
    ~ occurs "?" r /\ last_char r <> Some "/"%char.
Proof.
  assert (H : no_blanks "instagram.com/reel/abc//?igsh=1" <> "") by discriminate.
  split; [exact H|].
  exact (norm_url_shape no_blanks "instagram.com/reel/abc//?igsh=1" H).
Defined.

Lemma norm_url_drops_query_witness :
  (no_blanks "https://instagram.com/reel/abc" = "https://instagram.com/reel/abc" /\
   no_blanks "https://instagram.com/reel/abc?igsh=1"
   = "https://instagram.com/reel/abc" ++ String "?" "igsh=1" /\
   "https://instagram.com/reel/abc" <> "" /\
   ~ occurs "?" "https://instagram.com/reel/abc") /\
  _norm_url no_blanks "https://instagram.com/reel/abc?igsh=1"
  = _norm_url no_blanks "https://instagram.com/reel/abc".
Proof.
  assert (H1 : no_blanks "https://instagram.com/reel/abc"
               = "https://instagram.com/reel/abc") by reflexivity.
  assert (H2 : no_blanks "https://instagram.com/reel/abc?igsh=1"
               = "https://instagram.com/reel/abc" ++ String "?" "igsh=1")
    by reflexivity.
  assert (H3 : "https://instagram.com/reel/abc" <> "") by discriminate.
  assert (H4 : ~ occurs "?" "https://instagram.com/reel/abc").
  { simpl. intuition discriminate. }
  split; [repeat split; assumption|].
  exact (norm_url_drops_query no_blanks
           "https://instagram.com/reel/abc"
           "https://instagram.com/reel/abc?igsh=1"
           "https://instagram.com/reel/abc" "igsh=1" H1 H2 H3 H4).
Defined.

(** The normalised form of the first example. *)
Example norm_url_sample :
  _norm_url no_blanks "instagram.com/reel/abc//?igsh=1"
  = "https://instagram.com/reel/abc/".
Proof. reflexivity. Qed.

End PipelineSpec.

(** * The fingerprint of a video and the whole request *)

(** ** app/core/fingerprint.py: [quick_video_fp] *)

Module QuickFp.

Section Collaborators.

(** The world and what the calls do to it: [video_to_frame_hashes],
    [extract_audio_wav(video_path, tmp_wav, sr=22050)] and
    [audio_vec_from_wav(tmp_wav)].  [tmp_wav_of] makes the path of the
    temporary audio file of a video: it reads the file's modification time
    for [_video_sig] and creates the directory, outside the [try], so it
    may raise too. *)
Context {W : Type}.
Variable cfg : CFG.
Variable video_to_frame_hashes : string -> Q -> option Z -> Eff.M W (list string).
Variable extract_audio_wav : string -> string -> Eff.M W string.
Variable audio_vec_from_wav : string -> Eff.M W (option (list Q)).
Variable tmp_wav_of : string -> Eff.M W string.

(** [prepare_audio_vec_for_video(video_path)]. *)
Definition prepare_audio_vec_for_video (video_path : string)
  : Eff.M W (option (list Q)) :=
  tmp_wav <~ tmp_wav_of video_path ;~
  extracted <~ Eff.except_any
                 (Eff.bind (extract_audio_wav video_path tmp_wav)
                           (fun _ => Eff.ret true))
                 (Eff.ret false) ;~
  if (extracted : bool) then audio_vec_from_wav tmp_wav else Eff.ret None.

(** [quick_video_fp(video_path, stride_sec, limit)]. *)
Definition quick_video_fp (video_path : string) (stride_sec : option Q)
    (limit : option Z) : Eff.M W (list string * option (list Q)) :=
  let s := default (frame_stride_sec cfg) stride_sec in
  fhashes <~ video_to_frame_hashes video_path s limit ;~
  avec <~ (if audio_fp cfg then prepare_audio_vec_for_video video_path
           else Eff.ret None) ;~
  Eff.ret (fhashes, avec).

End Collaborators.

End QuickFp.

Module QuickFpSpec.

Import EffFacts QuickFp.

Section Collaborators.

Context {W : Type}.
Variable cfg : CFG.
Variable video_to_frame_hashes : string -> Q -> option Z -> Eff.M W (list string).
Variable extract_audio_wav : string -> string -> Eff.M W string.
Variable audio_vec_from_wav : string -> Eff.M W (option (list Q)).
Variable tmp_wav_of : string -> Eff.M W string.

#[local] Abbreviation quick_c :=
  (quick_video_fp cfg video_to_frame_hashes extract_audio_wav
     audio_vec_from_wav tmp_wav_of).

(** Audio is optional for a fingerprint.  Once the frame hashes are
    there, the call returns them with no audio vector, and does not raise,
    both when audio fingerprints are switched off (nothing of the audio is
    then touched: the world stays as frame hashing left it) and when, the
    temporary path made, extracting the audio raises, whatever the
    exception; and an exception raised while making the temporary path is
    not caught. *)
Theorem quick_video_fp_audio_optional (video_path : string)
    (stride_sec : option Q) (limit : option Z) (hs : list string) (w w1 : W) :
  video_to_frame_hashes video_path
    (default (frame_stride_sec cfg) stride_sec) limit w = (Ok hs, w1) ->
  (audio_fp cfg = false ->
   quick_c video_path stride_sec limit w = (Ok (hs, None), w1)) /\
  (forall tmp e w2 w3,
     audio_fp cfg = true ->
     tmp_wav_of video_path w1 = (Ok tmp, w2) ->
     extract_audio_wav video_path tmp w2 = (Raise e, w3) ->
     quick_c video_path stride_sec limit w = (Ok (hs, None), w3)) /\
  (forall e w2,
     audio_fp cfg = true ->
     tmp_wav_of video_path w1 = (Raise e, w2) ->
     quick_c video_path stride_sec limit w = (Raise e, w2)).
Proof.
  intros Hfr. unfold quick_video_fp. rewrite (bind_ok _ _ _ _ _ Hfr).
  split; [|split].
  - intros ->. reflexivity.
  - intros tmp e w2 w3 -> Htmp Hex.
    unfold prepare_audio_vec_for_video.
    unfold Eff.bind at 1. rewrite (bind_ok _ _ _ _ _ Htmp).
    unfold Eff.bind, Eff.except_any. rewrite Hex. reflexivity.
  - intros e w2 -> Htmp.
    unfold prepare_audio_vec_for_video.
    unfold Eff.bind. rewrite Htmp. reflexivity.
Qed.

End Collaborators.

(** A world where extracting audio always fails. *)
Definition frames_only (p : string) (s : Q) (l : option Z)
  : Eff.M nat (list string) :=
  fun w => (Ok FrameSpec.sample_b, S w).

Definition no_audio (p t : string) : Eff.M nat string :=
  fun w => (Raise FFMpegError, S w).

Definition never_asked (p : string) : Eff.M nat (option (list Q)) :=
  Eff.ret (Some [1]).

Definition wav_name (p : string) : Eff.M nat string :=
  fun w => (Ok (p +:+ ".wav"), S w).

Definition quick_sample :=
  quick_video_fp FrameSpec.default_cfg frames_only no_audio never_asked
    wav_name.

Lemma quick_video_fp_audio_optional_witness :
  frames_only "yt/a.mp4"
    (default (frame_stride_sec FrameSpec.default_cfg) None) (Some 40%Z) 0%nat
  = (Ok FrameSpec.sample_b, 1%nat) /\
  ((audio_fp FrameSpec.default_cfg = false ->
    quick_sample "yt/a.mp4" None (Some 40%Z) 0%nat
    = (Ok (FrameSpec.sample_b, None), 1%nat)) /\
   (forall tmp e w2 w3,
      audio_fp FrameSpec.default_cfg = true ->
      wav_name "yt/a.mp4" 1%nat = (Ok tmp, w2) ->
      no_audio "yt/a.mp4" tmp w2 = (Raise e, w3) ->
      quick_sample "yt/a.mp4" None (Some 40%Z) 0%nat
      = (Ok (FrameSpec.sample_b, None), w3)) /\
   (forall e w2,
      audio_fp FrameSpec.default_cfg = true ->
      wav_name "yt/a.mp4" 1%nat = (Raise e, w2) ->
      quick_sample "yt/a.mp4" None (Some 40%Z) 0%nat = (Raise e, w2))).
Proof.
  assert (H : frames_only "yt/a.mp4"
                (default (frame_stride_sec FrameSpec.default_cfg) None)
                (Some 40%Z) 0%nat
              = (Ok FrameSpec.sample_b, 1%nat)) by reflexivity.
  split; [exact H|].
  exact (quick_video_fp_audio_optional FrameSpec.default_cfg frames_only
           no_audio never_asked wav_name "yt/a.mp4" None (Some 40%Z)
           FrameSpec.sample_b 0%nat 1%nat H).
Defined.

(** In the sample world the fingerprint has the frame hashes and no
    audio vector. *)
Example quick_sample_run :
  quick_sample "yt/a.mp4" None (Some 40%Z) 0%nat
  = (Ok (FrameSpec.sample_b, None), 3%nat).
Proof. reflexivity. Qed.

End QuickFpSpec.

(** ** app/core/pipeline.py: [find_youtube_for_reel] *)

Module PipelineRun.

Import Fingerprint Matcher PyList Ranking.

(** [int(x)] on a float: truncation towards zero. *)
Definition py_int (x : Q) : Z := Z.quot (Qnum x) (Z.pos (Qden x)).

(** [@dataclass PipelineResult]; the dictionaries of [best] and [top] are
    those [_score_to_dict] makes, one entry per field of a
    [CandidateScore], and are kept as the records themselves. *)
Record PipelineResult : Type := mkPipelineResult {
  ok : bool;
  reason : option string;
  ig_url : string;
  ig_title : option string;
  ig_uploader : option string;
  ig_duration : option Q;
  best : option CandidateScore;
  top : list CandidateScore;
  took_ms : Z;
  cached : bool
}.

Section Collaborators.

(** Besides the collaborators of the ranking: [str.strip], the clock
    [time.time()], [ensure_prereqs()] (the flags for ffmpeg, ffprobe and
    yt-dlp), the result cache ([cache_exists] is [_cache_path(key)], which
    creates the directory, followed by [cp.exists()]; reading gives a result
    when the file parses and fits [PipelineResult]; writing may raise),
    [get_reel_info(u, sample_limit=40)] and [search_candidates_for_reel]. *)
Context {W : Type}.
Variable cfg : CFG.
Variable download_video : string -> Eff.M W string.
Variable frame_hashes_from_dir : string -> Eff.M W (list string).
Variable quick_video_fp : string -> Eff.M W (list string * option (list Q)).
Variable audio_vec_from_wav : string -> Eff.M W (option (list Q)).
Variable norm : list Q -> Q.
Variable partial_ratio : string -> string -> Q.
Variable lower : string -> string.
Variable _reason_line : CombinedScore -> Q -> Q -> string.
Variable strip : string -> string.
Variable now : Eff.M W Q.
Variable ensure_prereqs : Eff.M W (bool * bool * bool).
Variable _key : string -> string.
Variable cache_exists : string -> Eff.M W bool.
Variable read_cache : string -> Eff.M W PipelineResult.
Variable write_cache : string -> PipelineResult -> Eff.M W unit.
Variable get_reel_info : string -> Eff.M W IgFetch.ReelInfo.
Variable search_candidates_for_reel :
  string -> option string -> Q -> Eff.M W (list YtSearch.YTCandidate).

(** [find_youtube_for_reel(ig_url, force, max_eval)]. *)
Definition find_youtube_for_reel (ig_url : string) (force : bool)
    (max_eval : Z) : Eff.M W PipelineResult :=
  t0 <~ now ;~
  tools <~ ensure_prereqs ;~
  if negb (fst (fst tools) && snd (fst tools) && snd tools) then
    t1 <~ now ;~
    Eff.ret (mkPipelineResult false
               (Some "missing tools: ffmpeg/ffprobe/yt-dlp")
               (Pipeline._norm_url strip ig_url) None None None None []
               (py_int ((t1 - t0) * 1000)) false)
  else
    let u := Pipeline._norm_url strip ig_url in
    let key := _key u in
    there <~ cache_exists key ;~
    hit <~ (if there && negb force
            then Eff.except_any
                   (Eff.bind (read_cache key) (fun r => Eff.ret (Some r)))
                   (Eff.ret None)
            else Eff.ret None) ;~
    match hit with
    | Some r => Eff.ret r
    | None =>
        reel <~ get_reel_info u ;~
        cands <~ search_candidates_for_reel (IgFetch.title reel)
                   (IgFetch.uploader reel) (IgFetch.duration reel) ;~
        scored <~ rank_candidates cfg download_video frame_hashes_from_dir
                    quick_video_fp audio_vec_from_wav norm partial_ratio
                    lower _reason_line reel cands max_eval ;~
        let best := pick_best scored in
        let top := slice_to 6 scored in
        t1 <~ now ;~
        let res :=
          mkPipelineResult (bool_decide (is_Some best))
            (if bool_decide (is_Some best) then None
             else Some "no confident match")
            u (Some (IgFetch.title reel)) (IgFetch.uploader reel)
            (Some (IgFetch.duration reel)) best top
            (py_int ((t1 - t0) * 1000)) false in
        _ <~ Eff.except_any (write_cache key res) (Eff.ret tt) ;~
        Eff.ret res
    end.

End Collaborators.

End PipelineRun.

Module PipelineRunSpec.

Import Fingerprint Matcher PyList PyListFacts EffFacts Ranking PipelineRun.

Lemma StronglySorted_take {A : Type} (R : A -> A -> Prop) (l : list A) (k : nat) :
  StronglySorted R l -> StronglySorted R (take k l).
Proof.
  intros Hs. revert k. induction Hs as [|x l Hs IH Hall]; intros [|k]; simpl;
    try constructor.
  - apply IH.
  - rewrite List.Forall_forall in *. intros y Hy. apply Hall.
    rewrite <- (take_drop k l). apply in_or_app. left. exact Hy.
Qed.

(** What a caller may rely on in a result: [ok] says whether there is a
    best match, and a reason is given exactly when there is none; the
    result is not marked as cached; [top] holds at most six records, of
    distinct videos, sorted by fused score; a best match is the first of
    [top] and meets both acceptance thresholds. *)
Definition well_formed (res : PipelineResult) : Prop :=
  ok res = bool_decide (is_Some (best res)) /\
  (reason res = None <-> ok res = true) /\
  cached res = false /\
  (length (top res) <= 6)%nat /\
  StronglySorted (fun x y => fused_score y <= fused_score x) (top res) /\
  NoDup (video_id <$> top res) /\
  (forall b, best res = Some b ->
     head (top res) = Some b /\
     0.62 <= fused_score b /\ 0.55 <= frame_match_frac b).

Section Collaborators.

Context {W : Type}.
Variable cfg : CFG.
Variable download_video : string -> Eff.M W string.
Variable frame_hashes_from_dir : string -> Eff.M W (list string).
Variable quick_video_fp : string -> Eff.M W (list string * option (list Q)).
Variable audio_vec_from_wav : string -> Eff.M W (option (list Q)).
Variable norm : list Q -> Q.
Variable partial_ratio : string -> string -> Q.
Variable lower : string -> string.
Variable _reason_line : CombinedScore -> Q -> Q -> string.
Variable strip : string -> string.
Variable now : Eff.M W Q.
Variable ensure_prereqs : Eff.M W (bool * bool * bool).
Variable _key : string -> string.
Variable cache_exists : string -> Eff.M W bool.
Variable read_cache : string -> Eff.M W PipelineResult.
Variable write_cache : string -> PipelineResult -> Eff.M W unit.
Variable get_reel_info : string -> Eff.M W IgFetch.ReelInfo.
Variable search_candidates_for_reel :
  string -> option string -> Q -> Eff.M W (list YtSearch.YTCandidate).

#[local] Abbreviation find_c :=
  (find_youtube_for_reel cfg download_video frame_hashes_from_dir
     quick_video_fp audio_vec_from_wav norm partial_ratio lower _reason_line
     strip now ensure_prereqs _key cache_exists read_cache write_cache
     get_reel_info search_candidates_for_reel).

Lemma ranked_well_formed (scored : list CandidateScore) (u : string)
    (t : option string) (up : option string) (d : option Q) (ms : Z) :
  StronglySorted (fun x y => fused_score y <= fused_score x) scored ->
  NoDup (video_id <$> scored) ->
  well_formed
    (mkPipelineResult (bool_decide (is_Some (pick_best scored)))
       (if bool_decide (is_Some (pick_best scored)) then None
        else Some "no confident match")
       u t up d (pick_best scored) (slice_to 6 scored) ms false).
Proof.
  intros Hs Hnd. unfold well_formed. simpl.
  split; [reflexivity|].
  split; [destruct (bool_decide (is_Some (pick_best scored)));
          split; congruence|].
  split; [reflexivity|].
  change (slice_to 6 scored) with (take 6 scored).
  split; [rewrite length_take; lia|].
  split; [apply StronglySorted_take, Hs|].
  split.
  { apply (sublist_NoDup _ _ Hnd). apply fmap_sublist, sublist_take. }
  intros b Hb. unfold pick_best in Hb.
  destruct scored as [|top0 rest]; [discriminate|].
  destruct (Qle_bool 0.62 (fused_score top0)) eqn:E1; [|discriminate].
  destruct (Qle_bool 0.55 (frame_match_frac top0)) eqn:E2; [|discriminate].
  injection Hb as <-. bool_to_order. repeat split; assumption.
Qed.

(** Every result that [find_youtube_for_reel] returns is either one it
    read from the result cache (only when not forced), or well formed, and
    then for the normalised url. *)
Theorem find_youtube_result (given_url : string) (force : bool)
    (max_eval : Z) (res : PipelineResult) (w w' : W) :
  find_c given_url force max_eval w = (Ok res, w') ->
  (force = false /\
   exists w0 w1,
     read_cache (_key (Pipeline._norm_url strip given_url)) w0 = (Ok res, w1)) \/
  (well_formed res /\ ig_url res = Pipeline._norm_url strip given_url).
Proof.
  unfold find_youtube_for_reel. intros H.
  apply bind_inv in H. destruct H as (t0 & w1 & _ & H).
  apply bind_inv in H. destruct H as (tools & w2 & _ & H).
  destruct (negb (fst (fst tools) && snd (fst tools) && snd tools)).
  { apply bind_inv in H. destruct H as (t1 & w3 & _ & H).
    apply ret_inv in H. destruct H as [-> _].
    right. split; [|reflexivity].
    unfold well_formed. simpl.
    split; [reflexivity|]. split; [split; discriminate|].
    split; [reflexivity|]. split; [lia|].
    split; [constructor|]. split; [constructor|].
    intros b Hb. discriminate. }
  apply bind_inv in H. destruct H as (there & w3 & _ & H).
  apply bind_inv in H. destruct H as (hit & w4 & Hhit & H).
  destruct hit as [r|].
  { apply ret_inv in H. destruct H as [-> _]. left.
    destruct (there && negb force) eqn:E.
    - apply andb_true_iff in E. destruct E as [_ Ef].
      apply negb_true_iff in Ef. split; [exact Ef|].
      unfold Eff.except_any, Eff.bind in Hhit.
      destruct (read_cache _ w3) as [[r'|e] w5] eqn:Hr.
      + unfold Eff.ret in Hhit. injection Hhit as -> _.
        exists w3, w5. exact Hr.
      + unfold Eff.ret in Hhit. discriminate.
    - apply ret_inv in Hhit. destruct Hhit; discriminate. }
  apply bind_inv in H. destruct H as (reel & w5 & _ & H).
  apply bind_inv in H. destruct H as (cands & w6 & _ & H).
  apply bind_inv in H. destruct H as (scored & w7 & Hrank & H).
  apply bind_inv in H. destruct H as (t1 & w8 & _ & H).
  apply bind_inv in H. destruct H as (u & w9 & _ & H).
  apply ret_inv in H. destruct H as [-> _].
  right. split; [|reflexivity].
  destruct (RankingSpec.rank_candidates_inv _ _ _ _ _ _ _ _ _ _ _ _ _ _ _ Hrank)
    as (new & -> & _ & Hnd & _).
  apply ranked_well_formed.
  - apply sort_desc_sorted.
  - rewrite (sort_desc_perm fused_score new). exact Hnd.
Qed.

End Collaborators.

End PipelineRunSpec.

(** ** A sample request *)

Module PipelineSample.

Import Fingerprint Matcher PyList Ranking PipelineRun RankingSample.

Definition clock : Eff.M nat Q := fun w => (Ok (inject_Z (Z.of_nat w)), w).

Definition all_tools : Eff.M nat (bool * bool * bool) :=
  Eff.ret (true, true, true).

Definition same_key (u : string) : string := u.

Definition no_cache (key : string) : Eff.M nat bool := Eff.ret false.

Definition unread (key : string) : Eff.M nat PipelineResult :=
  fun w => (Raise ValueError, w).

Definition unwritable (key : string) (r : PipelineResult) : Eff.M nat unit :=
  fun w => (Raise ValueError, w).

Definition fetch_reel (u : string) : Eff.M nat IgFetch.ReelInfo := Eff.ret reel.

Definition search (t : string) (up : option string) (d : Q)
  : Eff.M nat (list YtSearch.YTCandidate) :=
  Eff.ret cands.

Definition find_sample :=
  find_youtube_for_reel FrameSpec.default_cfg download frames video_fp
    audio_vec unit_norm half_ratio same_case no_reason PipelineSpec.no_blanks
    clock all_tools same_key no_cache unread unwritable fetch_reel search.

Definition sample_result : PipelineResult :=
  Eval vm_compute in
    match fst (find_sample "instagram.com/reel/x?igsh=1" false 12 0%nat) with
    | Ok r => r
    | Raise _ => mkPipelineResult false None "" None None None None [] 0 false
    end.

Lemma find_sample_run :
  find_sample "instagram.com/reel/x?igsh=1" false 12 0%nat
  = (Ok sample_result, 2%nat).
Proof. vm_compute. reflexivity. Qed.

Lemma find_youtube_result_witness :
  find_sample "instagram.com/reel/x?igsh=1" false 12 0%nat
    = (Ok sample_result, 2%nat) /\
  ((false = false /\
    exists w0 w1,
      unread (same_key (Pipeline._norm_url PipelineSpec.no_blanks
                          "instagram.com/reel/x?igsh=1")) w0
      = (Ok sample_result, w1)) \/
   (PipelineRunSpec.well_formed sample_result /\
    ig_url sample_result
    = Pipeline._norm_url PipelineSpec.no_blanks "instagram.com/reel/x?igsh=1")).
Proof.
  split; [exact find_sample_run|].
  exact (PipelineRunSpec.find_youtube_result FrameSpec.default_cfg download
           frames video_fp audio_vec unit_norm half_ratio same_case no_reason
           PipelineSpec.no_blanks clock all_tools same_key no_cache unread
           unwritable fetch_reel search
           "instagram.com/reel/x?igsh=1" false 12 sample_result 0%nat 2%nat
           find_sample_run).
Defined.

(** The sample request ranks both candidates but neither clears the
    confidence thresholds, so it reports no match. *)
Example sample_result_shape :
  ok sample_result = false /\
  reason sample_result = Some "no confident match" /\
  best sample_result = None /\
  length (top sample_result) = 2%nat /\
  ig_url sample_result = "https://instagram.com/reel/x/".
Proof. repeat split. Qed.

End PipelineSample.

(** * app/services/yt_search.py: the candidates for a reel *)

Module PyStr.

Import PyList.

Local Open Scope string_scope.

(** [k in t] on strings: [k] occurs in [t]; the empty string occurs in
    every string. *)
Fixpoint contains (k t : string) : bool :=
  String.prefix k t ||
  match t with
  | EmptyString => false
  | String _ t' => contains k t'
  end.

(** [sep.join(l)]. *)
Definition join (sep : string) (l : list string) : string :=
  String.concat sep l.

(** Truthiness of an [Optional[str]]: [None] and the empty string are
    falsy. *)
Definition truthy_opt_str (s : option string) : bool :=
  match s with
  | Some s => truthy_str s
  | None => false
  end.

End PyStr.

Module Search.

Import PyList PyStr YtSearch.

Local Open Scope string_scope.

(** The candidate [c] after [c.score_hint = s]. *)
Definition with_hint (c : YTCandidate) (s : Q) : YTCandidate :=
  mkYTCandidate (video_id c) (url c) (title c) (channel c) (duration c)
    (thumbnails c) (views c) (published_text c) s.

Section Collaborators.

(** [cfg.max_candidates]; [_title_keywords] (regular expressions on the
    title); [str.lower]; the search backend [yt_search(q, max_results)] and
    [time.sleep(0.4)], which act on the world [W]. *)
Context {W : Type}.
Variable max_candidates : Z.
Variable _title_keywords : string -> option string -> list string.
Variable lower : string -> string.
Variable yt_search : string -> Z -> Eff.M W (list YTCandidate).
Variable sleep : Eff.M W unit.

(** The loop that keeps the first eight distinct keywords: [seen] and
    [tmp] are the set and the list of the words kept so far; the length is
    tested after every word, kept or not. *)
Fixpoint keep_from (seen : gset string) (tmp : list string)
    (kws : list string) : list string :=
  match kws with
  | [] => tmp
  | w :: kws' =>
      let seen' := if decide (w ∈ seen) then seen else {[ w ]} ∪ seen in
      let tmp' := if decide (w ∈ seen) then tmp else (tmp ++ [w])%list in
      if (8 <=? length tmp')%nat then tmp' else keep_from seen' tmp' kws'
  end.

(** The words a search starts from: the keywords of the title and
    uploader, then the extra terms in lower case. *)
Definition raw_keywords (title : string) (uploader : option string)
    (extra_terms : option (list string)) : list string :=
  let kws := _title_keywords title uploader in
  if truthy_opt_list extra_terms
  then (kws ++ (lower <$> default [] extra_terms))%list
  else kws.

(** The keywords of a search: the first eight distinct words. *)
Definition keywords (title : string) (uploader : option string)
    (extra_terms : option (list string)) : list string :=
  keep_from ∅ [] (raw_keywords title uploader extra_terms).

(** The queries, in the order they are asked. *)
Definition queries (kws : list string) (title : string)
    (uploader : option string) : list string :=
  let qs := [] in
  let qs := if truthy_list kws then (qs ++ [join " " kws])%list else qs in
  let qs := match uploader with
            | Some u => if truthy_str u && truthy_str title
                        then (qs ++ [u +:+ " " +:+ title])%list else qs
            | None => qs
            end in
  let qs := if truthy_str title then (qs ++ [title])%list else qs in
  let qs := match uploader with
            | Some u => if truthy_str u then (qs ++ [u])%list else qs
            | None => qs
            end in
  qs.

(** [max_results] of every query. *)
Definition per_query : Z := Z.max 10 (max_candidates / 2).

(** The loop over the queries: [all_cands] is extended with what each
    query finds. *)
Fixpoint search_loop (qs : list string) (all_cands : list YTCandidate)
  : Eff.M W (list YTCandidate) :=
  match qs with
  | [] => Eff.ret all_cands
  | q :: qs' =>
      got <~ yt_search q per_query ;~
      _ <~ sleep ;~
      search_loop qs' (all_cands ++ got)%list
  end.

(** The coarse score of a candidate, from its duration, title, channel
    and views. *)
Definition hint (kws : list string) (uploader : option string)
    (duration : option Q) (c : YTCandidate) : Q :=
  let s := 0.0 in
  let s := match duration, YtSearch.duration c with
           | Some d, Some cd =>
               if truthy_float d && truthy_float cd then
                 let dd := Qabs (cd - d) in
                 if Qle_bool dd 2 then s + 3.0
                 else if Qle_bool dd 5 then s + 2.0
                 else if Qle_bool dd 10 then s + 1.0
                 else s
               else s
           | _, _ => s
           end in
  let t := lower (YtSearch.title c) in
  let s := if existsb (fun k => contains k t) (slice_to 4 kws)
           then s + 1.5 else s in
  let s := match uploader, channel c with
           | Some u, Some ch =>
               if truthy_str u && truthy_str ch
                  && contains (lower u) (lower ch)
               then s + 1.0 else s
           | _, _ => s
           end in
  let s := match views c with
           | Some v =>
               if negb (v =? 0)%Z
               then s + Py.min 2.0 (inject_Z v / 1000000.0) else s
           | None => s
           end in
  s.

(** [search_candidates_for_reel(title, uploader, duration, extra_terms)]. *)
Definition search_candidates_for_reel (title : string)
    (uploader : option string) (duration : option Q)
    (extra_terms : option (list string)) : Eff.M W (list YTCandidate) :=
  let kws := keywords title uploader extra_terms in
  all_cands <~ search_loop (queries kws title uploader) [] ;~
  let hinted :=
    (fun c => with_hint c (hint kws uploader duration c)) <$> all_cands in
  let uniq := _dedupe hinted in
  Eff.ret (slice_to max_candidates (sort_desc score_hint uniq)).

End Collaborators.

End Search.

Module SearchSpec.

Import PyList PyListFacts PyStr EffFacts YtSearch Search DedupeSpec.

(** The keyword loop, from any state it can be in: the words kept so far
    stay in front, and what is added are new words in their order. *)
Lemma keep_from_spec (seen : gset string) (tmp kws : list string) :
  (forall x, x ∈ seen <-> x ∈ tmp) -> NoDup tmp -> (length tmp < 8)%nat ->
  exists rest,
    keep_from seen tmp kws = tmp ++ rest /\
    NoDup (tmp ++ rest) /\
    (length (tmp ++ rest) <= 8)%nat /\
    sublist rest kws /\
    ((length (tmp ++ rest) < 8)%nat ->
     forall x, In x kws -> x ∈ tmp ++ rest).
Proof.
  revert seen tmp. induction kws as [|w kws IH]; intros seen tmp Hs Hnd Hlen.
  - exists []. simpl. rewrite app_nil_r.
    split; [reflexivity|]. split; [exact Hnd|]. split; [lia|].
    split; [constructor|]. intros _ x [].
  - cbn [keep_from]. destruct (decide (w ∈ seen)) as [Hin|Hnin].
    + destruct (8 <=? length tmp)%nat eqn:E;
        [apply Nat.leb_le in E; lia|].
      destruct (IH seen tmp Hs Hnd Hlen) as (rest & Heq & Hnd' & Hl & Hsub & Hall).
      exists rest. split; [exact Heq|]. split; [exact Hnd'|].
      split; [exact Hl|]. split; [apply sublist_cons, Hsub|].
      intros Hlt x [<-|Hx]; [|apply Hall; assumption].
      apply elem_of_app. left. apply Hs, Hin.
    + assert (Hnd1 : NoDup (tmp ++ [w])).
      { apply NoDup_app. split; [exact Hnd|]. split; [|apply NoDup_singleton].
        intros x Hx Hw. apply list_elem_of_singleton in Hw. subst x.
        apply Hnin, Hs, Hx. }
      destruct (8 <=? length (tmp ++ [w]))%nat eqn:E.
      * apply Nat.leb_le in E.
        exists [w]. split; [reflexivity|]. split; [exact Hnd1|].
        rewrite length_app in *. cbn [length] in *.
        split; [lia|]. split; [apply sublist_skip, sublist_nil_l|].
        intros Hlt. lia.
      * apply Nat.leb_gt in E.
        assert (Hs1 : forall x, x ∈ {[w]} ∪ seen <-> x ∈ tmp ++ [w]).
        { intros x. rewrite elem_of_union, elem_of_app, elem_of_singleton,
            list_elem_of_singleton, Hs. tauto. }
        destruct (IH _ _ Hs1 Hnd1 E) as (rest & Heq & Hnd' & Hl & Hsub & Hall).
        rewrite <- app_assoc in *. simpl in *.
        exists (w :: rest). split; [exact Heq|]. split; [exact Hnd'|].
        split; [exact Hl|]. split; [apply sublist_skip, Hsub|].
        intros Hlt x [<-|Hx]; [|apply Hall; assumption].
        apply elem_of_app. right. left.
Qed.

Section Collaborators.

Context {W : Type}.
Variable max_candidates : Z.
Variable _title_keywords : string -> option string -> list string.
Variable lower : string -> string.
Variable yt_search : string -> Z -> Eff.M W (list YTCandidate).
Variable sleep : Eff.M W unit.

#[local] Abbreviation raw_c := (raw_keywords _title_keywords lower).
#[local] Abbreviation keywords_c := (keywords _title_keywords lower).
#[local] Abbreviation hint_c := (hint lower).
#[local] Abbreviation loop_c := (search_loop max_candidates yt_search sleep).
#[local] Abbreviation search_c :=
  (search_candidates_for_reel max_candidates _title_keywords lower yt_search
     sleep).

(** The keywords of a search are at most eight distinct words, taken
    in their order from the words of the title, the uploader and the extra
    terms; and when fewer than eight are kept, no word was dropped. *)
Theorem keywords_first_eight (title : string) (uploader : option string)
    (extra_terms : option (list string)) :
  let raw := raw_keywords _title_keywords lower title uploader extra_terms in
  let kws := keywords _title_keywords lower title uploader extra_terms in
  NoDup kws /\
  (length kws <= 8)%nat /\
  sublist kws raw /\
  ((length kws < 8)%nat -> forall x, In x raw -> In x kws).
Proof.
  unfold keywords. cbv zeta.
  destruct (keep_from_spec ∅ [] (raw_c title uploader extra_terms))
    as (rest & -> & Hnd & Hl & Hsub & Hall).
  - intros x. rewrite elem_of_empty, elem_of_nil. tauto.
  - constructor.
  - simpl. lia.
  - simpl in *. repeat split; try assumption.
    intros Hlt x Hx. apply list_elem_of_In. apply Hall; assumption.
Qed.

(** The coarse score is at most 7.5 (3 for the duration, 1.5 for a
    keyword in the title, 1 for the channel, 2 for the views), and not
    negative when the view count is not. *)
Theorem score_hint_range (kws : list string) (uploader : option string)
    (duration : option Q) (c : YTCandidate) :
  (forall v, views c = Some v -> (0 <= v)%Z) ->
  0 <= hint_c kws uploader duration c <= 7.5.
Proof.
  intros Hv. unfold hint.
  set (s1 := match duration, YtSearch.duration c with
             | Some d, Some cd => _
             | _, _ => _
             end).
  assert (H1 : 0 <= s1 <= 3).
  { subst s1. destruct duration as [d|]; [|lra].
    destruct (YtSearch.duration c) as [cd|]; [|lra].
    destruct (truthy_float d && truthy_float cd); [|lra].
    destruct (Qle_bool (Qabs (cd - d)) 2); [lra|].
    destruct (Qle_bool (Qabs (cd - d)) 5); [lra|].
    destruct (Qle_bool (Qabs (cd - d)) 10); lra. }
  clearbody s1.
  set (s2 := if existsb _ _ then s1 + 1.5 else s1).
  assert (H2 : 0 <= s2 <= 4.5).
  { subst s2. destruct (existsb _ _); lra. }
  clearbody s2.
  set (s3 := match uploader, channel c with
             | Some u, Some ch => _
             | _, _ => _
             end).
  assert (H3 : 0 <= s3 <= 5.5).
  { subst s3. destruct uploader as [u|]; [|lra].
    destruct (channel c) as [ch|]; [|lra].
    destruct (truthy_str u && truthy_str ch && contains (lower u) (lower ch));
      lra. }
  clearbody s3.
  destruct (views c) as [v|] eqn:Ev; [|lra].
  destruct (negb (v =? 0)%Z); [|lra].
  specialize (Hv v eq_refl).
  assert (Hq : 0 <= inject_Z v / 1000000.0).
  { unfold Qdiv. apply Qmult_le_0_compat; [|discriminate].
    change 0 with (inject_Z 0). rewrite <- Zle_Qle. exact Hv. }
  destruct (min_spec 2.0 (inject_Z v / 1000000.0)) as [[Hlt ->]|[Hle ->]]; lra.
Qed.

(** What a query finds, in some state of the world. *)
Definition found (q : string) (c : YTCandidate) : Prop :=
  exists (w0 w1 : W) (got : list YTCandidate),
    yt_search q (per_query max_candidates) w0 = (Ok got, w1) /\ In c got.

Lemma search_loop_inv (qs : list string) (acc all_cands : list YTCandidate)
    (w w' : W) :
  loop_c qs acc w = (Ok all_cands, w') ->
  forall c, In c all_cands -> In c acc \/ exists q, In q qs /\ found q c.
Proof.
  revert acc w. induction qs as [|q qs IH]; intros acc w H c Hc.
  - apply ret_inv in H. destruct H as [-> _]. left. exact Hc.
  - cbn [search_loop] in H.
    apply bind_inv in H. destruct H as (got & w1 & Hgot & H).
    apply bind_inv in H. destruct H as (u & w2 & _ & H).
    destruct (IH _ _ H c Hc) as [Hacc|(q' & Hq' & Hf)].
    + apply in_app_iff in Hacc. destruct Hacc as [Hacc|Hnew].
      * left. exact Hacc.
      * right. exists q. split; [left; reflexivity|].
        exists w, w1, got. split; assumption.
    + right. exists q'. split; [right; exact Hq' | exact Hf].
Qed.

(** The candidates returned for a reel have distinct video ids, are
    sorted by descending hint, are at most [max_candidates], and each is a
    candidate that one of the queries found, with its hint set. *)
Theorem search_candidates_result (title : string) (uploader : option string)
    (duration : option Q) (extra_terms : option (list string))
    (out : list YTCandidate) (w w' : W) :
  search_c title uploader duration extra_terms w = (Ok out, w') ->
  NoDup (video_id <$> out) /\
  StronglySorted (fun x y => score_hint y <= score_hint x) out /\
  ((0 <= max_candidates)%Z -> (length out <= Z.to_nat max_candidates)%nat) /\
  (forall c, In c out ->
     exists q c0,
       In q (queries (keywords_c title uploader extra_terms) title uploader) /\
       found q c0 /\
       c = with_hint c0
             (hint_c (keywords_c title uploader extra_terms) uploader
                duration c0)).
Proof.
  unfold search_candidates_for_reel. intros H.
  apply bind_inv in H. destruct H as (all_cands & w1 & Hloop & H).
  apply ret_inv in H. destruct H as [-> _].
  set (kws := keywords_c title uploader extra_terms) in *.
  set (hinted := (fun c => with_hint c (hint_c kws uploader duration c))
                   <$> all_cands).
  destruct (dedupe_from_spec ∅ hinted) as (Hnd & _ & Hsub & _).
  fold (_dedupe hinted) in Hnd, Hsub.
  pose proof (sort_desc_perm score_hint (_dedupe hinted)) as Hp.
  pose proof (sort_desc_sorted score_hint (_dedupe hinted)) as Hs.
  destruct (slice_to_take max_candidates
              (sort_desc score_hint (_dedupe hinted))) as (k & Hk).
  split.
  { rewrite Hk. eapply sublist_NoDup; [|apply fmap_sublist, sublist_take].
    rewrite Hp. exact Hnd. }
  split.
  { rewrite Hk. apply PipelineRunSpec.StronglySorted_take. exact Hs. }
  split; [apply slice_to_length|].
  intros c Hc. apply slice_to_In in Hc.
  apply list_elem_of_In in Hc. rewrite Hp in Hc.
  apply (fun H => elem_of_sublist _ _ _ H Hsub) in Hc.
  apply list_elem_of_fmap in Hc. destruct Hc as (c0 & -> & Hc0).
  apply list_elem_of_In in Hc0.
  destruct (search_loop_inv _ _ _ _ _ Hloop c0 Hc0) as [[]|(q & Hq & Hf)].
  exists q, c0. repeat split; assumption.
Qed.

(** With nothing to ask for (an empty title with no keywords, no
    uploader, no extra terms) no query is made: the result is empty and the
    world untouched. *)
Theorem search_candidates_nothing_to_ask (uploader : option string)
    (duration : option Q) (extra_terms : option (list string)) (w : W) :
  _title_keywords "" uploader = [] ->
  truthy_opt_str uploader = false ->
  truthy_opt_list extra_terms = false ->
  search_c "" uploader duration extra_terms w = (Ok [], w).
Proof.
  intros Hk Hu He.
  unfold search_candidates_for_reel, keywords, raw_keywords.
  rewrite He, Hk. cbn [keep_from].
  assert (Hq : queries [] "" uploader = []).
  { unfold queries. destruct uploader as [u|]; [|reflexivity].
    simpl in Hu. rewrite Hu. reflexivity. }
  rewrite Hq. cbn [search_loop]. unfold Eff.bind, Eff.ret. simpl.
  unfold slice_to. destruct (0 <=? max_candidates)%Z; rewrite take_nil;
    reflexivity.
Qed.

Lemma search_loop_total (qs : list string) (acc : list YTCandidate) (w : W) :
  (forall q n w0, exists got w1, yt_search q n w0 = (Ok got, w1)) ->
  (forall w0, exists w1, sleep w0 = (Ok tt, w1)) ->
  exists all_cands w', loop_c qs acc w = (Ok all_cands, w').
Proof.
  intros Hy Hsl. revert acc w. induction qs as [|q qs IH]; intros acc w.
  - exists acc, w. reflexivity.
  - cbn [search_loop].
    destruct (Hy q (per_query max_candidates) w) as (got & w1 & Hgot).
    destruct (Hsl w1) as (w2 & Hs).
    rewrite (bind_ok _ _ _ _ _ Hgot), (bind_ok _ _ _ _ _ Hs).
    apply IH.
Qed.

(** The search adds no failure of its own: when the backend and the
    pause between queries do not raise, a list is returned. *)
Theorem search_candidates_returns (title : string) (uploader : option string)
    (duration : option Q) (extra_terms : option (list string)) (w : W) :
  (forall q n w0, exists got w1, yt_search q n w0 = (Ok got, w1)) ->
  (forall w0, exists w1, sleep w0 = (Ok tt, w1)) ->
  exists out w',
    search_candidates_for_reel max_candidates _title_keywords lower yt_search
      sleep title uploader duration extra_terms w = (Ok out, w').
Proof.
  intros Hy Hsl. unfold search_candidates_for_reel.
  destruct (search_loop_total
              (queries (keywords_c title uploader extra_terms) title uploader)
              [] w Hy Hsl) as (all_cands & w' & Hloop).
  rewrite (bind_ok _ _ _ _ _ Hloop). eexists. eexists. reflexivity.
Qed.

End Collaborators.

End SearchSpec.

(** ** A sample search *)

Module SearchSample.

Import PyList PyStr YtSearch Search.

(** One keyword for any title but the empty one. *)
Definition words (t : string) (u : option string) : list string :=
  if String.eqb t "" then [] else ["clip"].

(** Every query finds the same five videos; the world counts the
    queries. *)
Definition backend (q : string) (n : Z) : Eff.M nat (list YTCandidate) :=
  fun w => (Ok RankingSample.cands, S w).

Definition pause : Eff.M nat unit := Eff.ret tt.

Definition search_sample :=
  search_candidates_for_reel 25 words RankingSample.same_case backend pause.

Definition found_sample : list YTCandidate :=
  Eval vm_compute in
    match fst (search_sample "clip" None (Some 30) None 0%nat) with
    | Ok out => out
    | Raise _ => []
    end.

Lemma search_sample_run :
  search_sample "clip" None (Some 30) None 0%nat = (Ok found_sample, 2%nat).
Proof. vm_compute. reflexivity. Qed.

(** The four distinct videos, the closest in duration first. *)
Example found_sample_ids :
  video_id <$> found_sample = ["first"; "gone"; "long"; "open"] /\
  Forall2 Qeq (score_hint <$> found_sample) [4.5; 4.5; 1.5; 1.5].
Proof. split; [reflexivity|]. repeat constructor. Qed.

Definition popular : YTCandidate :=
  mkYTCandidate "pop" "https://www.youtube.com/watch?v=pop" "a clip"
    (Some "studio") (Some 33) [] (Some 3500000%Z) None 0.

Lemma backend_returns (q : string) (n : Z) (w0 : nat) :
  exists got w1, backend q n w0 = (Ok got, w1).
Proof. eexists. eexists. reflexivity. Qed.

Lemma pause_returns (w0 : nat) : exists w1, pause w0 = (Ok tt, w1).
Proof. eexists. reflexivity. Qed.

Lemma score_hint_range_witness :
  (forall v, views popular = Some v -> (0 <= v)%Z) /\
  0 <= hint RankingSample.same_case ["clip"] (Some "studio") (Some 30) popular
    <= 7.5.
Proof.
  assert (H : forall v, views popular = Some v -> (0 <= v)%Z).
  { intros v [= <-]. lia. }
  split; [exact H|].
  exact (SearchSpec.score_hint_range RankingSample.same_case ["clip"]
           (Some "studio") (Some 30) popular H).
Defined.

Lemma search_candidates_result_witness :
  search_sample "clip" None (Some 30) None 0%nat = (Ok found_sample, 2%nat) /\
  NoDup (video_id <$> found_sample) /\
  StronglySorted (fun x y => score_hint y <= score_hint x) found_sample /\
  ((0 <= 25)%Z -> (length found_sample <= Z.to_nat 25)%nat) /\
  (forall c, In c found_sample ->
     exists q c0,
       In q (queries (keywords words RankingSample.same_case "clip" None None)
               "clip" None) /\
       SearchSpec.found 25 backend q c0 /\
       c = with_hint c0
             (hint RankingSample.same_case
                (keywords words RankingSample.same_case "clip" None None)
                None (Some 30) c0)).
Proof.
  split; [exact search_sample_run|].
  exact (SearchSpec.search_candidates_result 25 words RankingSample.same_case
           backend pause "clip" None (Some 30) None found_sample 0%nat 2%nat
           search_sample_run).
Defined.

Lemma search_candidates_nothing_to_ask_witness :
  words "" None = [] /\
  truthy_opt_str None = false /\
  truthy_opt_list (None : option (list string)) = false /\
  search_sample "" None (Some 30) None 0%nat = (Ok [], 0%nat).
Proof.
  split; [reflexivity|]. split; [reflexivity|]. split; [reflexivity|].
  exact (SearchSpec.search_candidates_nothing_to_ask 25 words
           RankingSample.same_case backend pause None (Some 30) None 0%nat
           eq_refl eq_refl eq_refl).
Defined.

Lemma search_candidates_returns_witness :
  (forall q n w0, exists got w1, backend q n w0 = (Ok got, w1)) /\
  (forall w0, exists w1, pause w0 = (Ok tt, w1)) /\
  exists out w', search_sample "clip" None (Some 30) None 0%nat = (Ok out, w').
Proof.
  split; [exact backend_returns|]. split; [exact pause_returns|].
  exact (SearchSpec.search_candidates_returns 25 words RankingSample.same_case
           backend pause "clip" None (Some 30) None 0%nat
           backend_returns pause_returns).
Defined.

End SearchSample.
